(** * Patch tokenizer of the ViT notebook (cv/cs197-F2022L5/harvard_ViT.ipynb)

    A shallow embedding of [img_to_patch] and of the three tensor
    primitives it calls ([reshape], [permute], [flatten]), followed by the
    properties of the patch layout.

    A tensor is represented by its shape and by its elements in logical
    (row-major) order.  Strides and storage sharing are not represented:
    none of the operations used by [img_to_patch] writes to a tensor, so
    they cannot be observed through it.  Element values are kept abstract
    (the operations only move elements around). *)

From stdpp Require Import base numbers list gmap.
From Stdlib Require Import Arith ZArith Lia Permutation.
Import ListNotations.

Local Open Scope nat_scope.

(** * The model *)

(** ** Exceptions and results *)

(** The Python exception classes the modelled code can raise. *)
Inductive exn : Type :=
| ValueError    (* tuple unpacking of [x.shape] with the wrong arity *)
| RuntimeError  (* raised by the tensor library: invalid shape, bad permutation *)
| IndexError.   (* raised by the tensor library: dimension out of range *)

Inductive Res (T : Type) : Type :=
| Ok (v : T)
| Raise (e : exn).
Arguments Ok {T} v.
Arguments Raise {T} e.

#[global] Instance Res_ret : MRet Res := @Ok.
#[global] Instance Res_bind : MBind Res :=
  fun _ _ f m => match m with Ok v => f v | Raise e => Raise e end.

Definition is_ok {T} (r : Res T) : bool :=
  match r with Ok _ => true | Raise _ => false end.

(** The specification speaks of one error kind, ShapeError; the code
    produces it either as the [ValueError] of the tuple unpacking or as the
    [RuntimeError] of [reshape]. *)
Definition ShapeError (e : exn) : bool :=
  match e with ValueError | RuntimeError => true | IndexError => false end.

(** ** Tensors *)

Section Tensors.
Context {A : Type}.

Record Tensor : Type := mkTensor { shape : list nat; data : list A }.

(** Number of elements of a shape. *)
Fixpoint numel (sh : list nat) : nat :=
  match sh with
  | [] => 1
  | d :: sh' => d * numel sh'
  end.

(** Row-major offset of a multi-index, and its inverse. *)
Fixpoint ravel (sh idx : list nat) : nat :=
  match sh, idx with
  | _ :: sh', i :: idx' => i * numel sh' + ravel sh' idx'
  | _, _ => 0
  end.

Fixpoint unravel (sh : list nat) (k : nat) : list nat :=
  match sh with
  | [] => []
  | _ :: sh' => k / numel sh' :: unravel sh' (k mod numel sh')
  end.

Fixpoint in_bounds (sh idx : list nat) : bool :=
  match sh, idx with
  | [], [] => true
  | d :: sh', i :: idx' => (i <? d) && in_bounds sh' idx'
  | _, _ => false
  end.

(** Every tensor the library hands out has as many elements as its shape
    says. *)
Definition wf (t : Tensor) : Prop := length (data t) = numel (shape t).

(** [t[i0, ..., in]] for non-negative indices. *)
Definition get (t : Tensor) (idx : list nat) : option A :=
  if in_bounds (shape t) idx then nth_error (data t) (ravel (shape t) idx)
  else None.

(** [torch.div(a, b, rounding_mode="trunc")] on two integers: the quotient
    rounded towards zero, an error for a zero divisor.  The operands are
    mathematical integers: the library converts them to 64-bit integers
    and refuses a patch size outside [-2^63, 2^63) with an [OverflowError],
    which is outside this model.  The statements below that depend on it
    bound the patch size. *)
Definition torch_div_trunc (a b : Z) : Res Z :=
  if (b =? 0)%Z then Raise RuntimeError else Ok (Z.quot a b).

(** [t.reshape(d0, ..., dn)].  A dimension below -1 is invalid, at most one
    dimension can be -1 (it is then inferred), and the element count must be
    kept.  The elements keep their logical order.  Sizes are natural
    numbers without bound: the library's 64-bit size arithmetic can only
    differ on a tensor without elements, whose sizes its element count does
    not bound. *)
Definition reshape (t : Tensor) (dims : list Z) : Res Tensor :=
  let n := numel (shape t) in
  if existsb (fun d => d <? -1)%Z dims then Raise RuntimeError
  else
    match count_occ Z.eq_dec dims (-1)%Z with
    | 0 =>
        let sh := map Z.to_nat dims in
        if numel sh =? n then Ok (mkTensor sh (data t)) else Raise RuntimeError
    | 1 =>
        let known := numel (map Z.to_nat (remove Z.eq_dec (-1)%Z dims)) in
        if known =? 0 then Raise RuntimeError
        else if n mod known =? 0 then
          Ok (mkTensor
                (map (fun d => if (d =? -1)%Z then n / known else Z.to_nat d) dims)
                (data t))
        else Raise RuntimeError
    | _ => Raise RuntimeError
    end.

(** The axis numbers given to [permute] are examined in order: one outside
    the rank is an [IndexError], one already seen a [RuntimeError]. *)
Fixpoint check_axes (rank : nat) (seen dims : list nat) : Res unit :=
  match dims with
  | [] => Ok tt
  | d :: dims' =>
      if rank <=? d then Raise IndexError
      else if existsb (Nat.eqb d) seen then Raise RuntimeError
      else check_axes rank (d :: seen) dims'
  end.

Fixpoint index_of (a : nat) (l : list nat) : nat :=
  match l with
  | [] => 0
  | b :: l' => if a =? b then 0 else S (index_of a l')
  end.

(** The index in the permuted tensor is [idx']; axis [k] of the result is
    axis [dims[k]] of the source, so the source index has [idx'[k]] at
    position [dims[k]]. *)
Definition permute_index (dims idx' : list nat) : list nat :=
  map (fun a => nth (index_of a dims) idx' 0) (seq 0 (length dims)).

(** Elements of [l] at the given offsets ([l] empty: nothing to take). *)
Definition gather (l : list A) (offs : list nat) : list A :=
  match l with
  | [] => []
  | d0 :: _ => map (fun o => nth o l d0) offs
  end.

(** [t.permute(d0, ..., dn)] for non-negative axis numbers: as many as the
    tensor has axes, each axis once. *)
Definition permute (t : Tensor) (dims : list nat) : Res Tensor :=
  if length dims =? length (shape t) then
    match check_axes (length (shape t)) [] dims with
    | Ok _ =>
        let sh' := map (fun a => nth a (shape t) 0) dims in
        Ok (mkTensor sh'
              (gather (data t)
                 (map (fun k =>
                         ravel (shape t) (permute_index dims (unravel sh' k)))
                      (seq 0 (numel sh')))))
    | Raise e => Raise e
    end
  else Raise RuntimeError.

(** [t.flatten(s, e)] for non-negative axis numbers: axes [s .. e] are
    merged into one, the elements keep their logical order.  Both axis
    numbers are checked against the rank (a tensor without axes counts as
    having one), then their order; a tensor without axes becomes a tensor
    with one axis of size 1.  The merged size is a natural number without
    bound, as for [reshape]. *)
Definition flatten (t : Tensor) (s e : nat) : Res Tensor :=
  let sh := shape t in
  let rank := Nat.max (length sh) 1 in
  if rank <=? s then Raise IndexError
  else if rank <=? e then Raise IndexError
  else if e <? s then Raise RuntimeError
  else
    match sh with
    | [] => Ok (mkTensor [1] (data t))
    | _ :: _ =>
        Ok (mkTensor
              (firstn s sh ++
               numel (firstn (S e - s) (skipn s sh)) :: skipn (S e) sh)
              (data t))
    end.

(** ** The function of the notebook

    The tuple unpacking names axis 2 [W] and axis 3 [H], as the source
    does.  The keyword argument with default [True] is an optional
    argument. *)
Definition img_to_patch (x : Tensor) (patch_size : Z)
    (flatten_channels : option bool) : Res Tensor :=
  let flatten_channels := default true flatten_channels in
  match shape x with
  | [B; C; W; H] =>
      h' ← torch_div_trunc (Z.of_nat H) patch_size;
      w' ← torch_div_trunc (Z.of_nat W) patch_size;
      x ← reshape x [Z.of_nat B; Z.of_nat C; h'; patch_size; w'; patch_size];
      x ← permute x [0; 2; 4; 1; 3; 5];
      x ← flatten x 1 2;
      if flatten_channels then flatten x 2 4 else Ok x
  | _ => Raise ValueError
  end.

End Tensors.
Arguments Tensor A : clear implicits.

(** Source offset of every element of the permuted tensor, for a batch of
    shape [(B, C, a2, a3)] reshaped to [(B, C, g3, P, g2, P)]. *)
Definition patch_offsets (B C g3 g2 P : nat) : list nat :=
  map (fun k =>
         ravel [B; C; g3; P; g2; P]
           (permute_index [0; 2; 4; 1; 3; 5] (unravel [B; g3; g2; C; P; P] k)))
      (seq 0 (numel [B; g3; g2; C; P; P])).

(** A tensor whose elements are their own offsets. *)
Definition arange (sh : list nat) : Tensor nat := mkTensor sh (seq 0 (numel sh)).

(** An elementwise operation ([x * 2], [x.abs()], a normalisation by fixed
    constants): same shape, [f] applied to every element. *)
Definition tensor_map {A B : Type} (f : A -> B) (t : Tensor A) : Tensor B :=
  mkTensor (shape t) (map f (data t)).

Definition res_map {T U : Type} (f : T -> U) (r : Res T) : Res U :=
  match r with Ok v => Ok (f v) | Raise e => Raise e end.

(** ** The caller: [VisionTransformer] *)

(** [nn.Linear] reduced to its two widths: the matrix product itself is
    floating-point arithmetic and is not part of this development, only the
    width test it performs on its input is; its test of the element type of
    the input is not (the statements below are about batches the layer
    accepts as to their element type). *)
Record Linear : Type := mkLinear { in_features : Z; out_features : Z }.

Record VisionTransformer : Type :=
  mkVisionTransformer { patch_size : Z; input_layer : Linear }.

(** The two attributes [__init__] sets that [forward] reads before its
    first matrix product. *)
Definition VisionTransformer_init (embed_dim num_channels patch_size : Z)
  : VisionTransformer :=
  mkVisionTransformer patch_size
    (mkLinear (num_channels * patch_size ^ 2) embed_dim).

Section Caller.
Context {A : Type}.

(** The first statements of [VisionTransformer.forward]: the tokens, the
    unpacking [B, T, _ = x.shape], and the width test of
    [self.input_layer(x)].  [flatten_channels] is not passed. *)
Definition VisionTransformer_forward_tokens (self : VisionTransformer)
    (x : Tensor A) : Res (Tensor A * nat * nat) :=
  x ← img_to_patch x (patch_size self) None;
  match shape x with
  | [B; T; F] =>
      if (Z.of_nat F =? in_features (input_layer self))%Z
      then Ok (x, B, T)
      else Raise RuntimeError
  | _ => Raise ValueError
  end.

End Caller.

(** ** The operations the specification names *)

Section SpecSide.
Context {A : Type}.

(** Follows the specification, not the source: "reassembling the grid-form
    output by inverting the partition/merge" for an image of height [H] and
    width [W]: the patch axis is split into the [(H/P, W/P)] grid, the axes
    are put back in the order (batch, channel, row group, row, column group,
    column), and the groups are merged. *)
Definition spec_reassemble (t : Tensor A) (H W : nat) : Res (Tensor A) :=
  match shape t with
  | [B; _; C; P; Q] =>
      t ← reshape t (map Z.of_nat [B; H / P; W / Q; C; P; Q]);
      t ← permute t [0; 3; 1; 4; 2; 5];
      reshape t (map Z.of_nat [B; C; H; W])
  | _ => Raise ValueError
  end.

(** Follows the specification, not the source: the last three axes
    (C, P, P) of a grid-form tensor merged into one, element order kept. *)
Definition spec_merge_features (t : Tensor A) : option (Tensor A) :=
  match shape t with
  | [B; N; C; P; Q] => Some (mkTensor [B; N; C * P * Q] (data t))
  | _ => None
  end.

End SpecSide.

(** ** The same function on an object store

    Python variables hold references to tensor objects.  Every tensor
    method called by [img_to_patch] returns a new object and the
    assignments [x = ...] rebind the local name only.  The store maps
    object identities to tensors; a computation takes a store and returns
    its result, or the exception raised, with the store it leaves. *)

Section Store.
Context {A : Type}.

(** Object identities are numbers; the store is a finite map from them. *)
Local Abbreviation ref := nat (only parsing).
Local Abbreviation store := (gmap nat (Tensor A)) (only parsing).

Definition St (T : Type) : Type := store -> Res T * store.

Definition st_ret {T} (v : T) : St T := fun s => (Ok v, s).

Definition st_bind {T U} (m : St T) (f : T -> St U) : St U :=
  fun s =>
    match m s with
    | (Ok v, s') => f v s'
    | (Raise e, s') => (Raise e, s')
    end.

Definition st_lift {T} (r : Res T) : St T := fun s => (r, s).

(** The object a reference denotes (every Python name denotes one; the
    failure branch is never taken from a state in which it does). *)
Definition st_read (r : ref) : St (Tensor A) :=
  fun s =>
    match s !! r with
    | Some t => (Ok t, s)
    | None => (Raise RuntimeError, s)
    end.

(** A new object. *)
Definition st_new (t : Tensor A) : St ref :=
  fun s => let r := fresh (dom s) in (Ok r, <[r := t]> s).

(** [r.f(...)] for a tensor method [f] returning a new tensor. *)
Definition st_method (f : Tensor A -> Res (Tensor A)) (r : ref) : St ref :=
  st_bind (st_read r) (fun t =>
  st_bind (st_lift (f t)) (fun t' =>
  st_new t')).

Definition img_to_patch_st (x : ref) (patch_size : Z)
    (flatten_channels : option bool) : St ref :=
  let flatten_channels := default true flatten_channels in
  st_bind (st_read x) (fun t =>
  match shape t with
  | [B; C; W; H] =>
      st_bind (st_lift (torch_div_trunc (Z.of_nat H) patch_size)) (fun h' =>
      st_bind (st_lift (torch_div_trunc (Z.of_nat W) patch_size)) (fun w' =>
      st_bind (st_method
                 (fun t => reshape t [Z.of_nat B; Z.of_nat C; h'; patch_size;
                                      w'; patch_size]) x) (fun x =>
      st_bind (st_method (fun t => permute t [0; 2; 4; 1; 3; 5]) x) (fun x =>
      st_bind (st_method (fun t => flatten t 1 2) x) (fun x =>
      if flatten_channels
      then st_method (fun t => flatten t 2 4) x
      else st_ret x)))))
  | _ => st_lift (Raise ValueError)
  end).

(** The tensor a run returns, if it returns one. *)
Definition st_value (out : Res ref * store) : Res (option (Tensor A)) :=
  match out with
  | (Ok r, s) => Ok (s !! r)
  | (Raise e, _) => Raise e
  end.

End Store.

(** * Properties of the primitives *)

(** ** Offsets and multi-indices *)

Lemma numel_cons d sh : numel (d :: sh) = d * numel sh.
Proof. reflexivity. Qed.

Lemma ravel_cons d sh i idx :
  ravel (d :: sh) (i :: idx) = i * numel sh + ravel sh idx.
Proof. reflexivity. Qed.

Lemma in_bounds_cons d sh i idx :
  in_bounds (d :: sh) (i :: idx) = true <-> i < d /\ in_bounds sh idx = true.
Proof.
  cbn [in_bounds]. rewrite andb_true_iff, Nat.ltb_lt. reflexivity.
Qed.

Lemma in_bounds_length sh : forall idx,
  in_bounds sh idx = true -> length idx = length sh.
Proof.
  induction sh as [|d sh IH]; intros [|i idx] Hb; try discriminate; auto.
  apply in_bounds_cons in Hb as [_ Hb]. cbn [length]. f_equal. auto.
Qed.

Lemma ravel_lt sh : forall idx,
  in_bounds sh idx = true -> ravel sh idx < numel sh.
Proof.
  induction sh as [|d sh IH]; intros [|i idx] Hb; try discriminate.
  - cbn. lia.
  - apply in_bounds_cons in Hb as [Hi Hb]. specialize (IH _ Hb).
    rewrite ravel_cons, numel_cons. nia.
Qed.

Lemma unravel_ravel sh : forall idx,
  in_bounds sh idx = true -> unravel sh (ravel sh idx) = idx.
Proof.
  induction sh as [|d sh IH]; intros [|i idx] Hb; try discriminate; auto.
  apply in_bounds_cons in Hb as [Hi Hb].
  pose proof (ravel_lt _ _ Hb) as Hlt.
  rewrite ravel_cons. cbn [unravel]. f_equal.
  - symmetry. apply (Nat.div_unique _ _ _ (ravel sh idx)); lia.
  - rewrite <- (IH _ Hb) at 2. f_equal.
    symmetry. apply (Nat.mod_unique _ _ i); lia.
Qed.

Lemma in_bounds_unravel sh : forall k,
  k < numel sh -> in_bounds sh (unravel sh k) = true.
Proof.
  induction sh as [|d sh IH]; intros k Hk; auto.
  rewrite numel_cons in Hk. cbn [unravel].
  assert (numel sh <> 0) by nia.
  apply in_bounds_cons. split.
  - apply Nat.Div0.div_lt_upper_bound. lia.
  - apply IH. apply Nat.mod_upper_bound. assumption.
Qed.

Lemma ravel_unravel sh : forall k,
  k < numel sh -> ravel sh (unravel sh k) = k.
Proof.
  induction sh as [|d sh IH]; intros k Hk.
  - cbn in *. lia.
  - rewrite numel_cons in Hk. cbn [unravel]. rewrite ravel_cons.
    assert (numel sh <> 0) by nia.
    rewrite IH by (apply Nat.mod_upper_bound; assumption).
    pose proof (Nat.div_mod_eq k (numel sh)). lia.
Qed.

(** ** Gathering elements *)

Section Gather.
Context {A : Type}.
Implicit Types (l : list A) (t : Tensor A).

Lemma length_gather l offs :
  l <> [] -> length (gather l offs) = length offs.
Proof.
  destruct l as [|d0 l]; [congruence|]. intros _. unfold gather.
  apply length_map.
Qed.

Lemma nth_error_gather l f n k :
  k < n -> f k < length l ->
  nth_error (gather l (map f (seq 0 n))) k = nth_error l (f k).
Proof.
  intros Hk Hf. destruct l as [|d0 l]; [cbn in Hf; lia|]. unfold gather.
  rewrite map_map.
  rewrite (nth_error_nth' _ d0) by (rewrite length_map, length_seq; lia).
  rewrite (nth_error_nth' (d0 :: l) d0) by lia.
  f_equal.
  rewrite (nth_indep _ d0 (nth (f 0) (d0 :: l) d0))
    by (rewrite length_map, length_seq; lia).
  rewrite (map_nth (fun x => nth (f x) (d0 :: l) d0)).
  rewrite seq_nth by lia. reflexivity.
Qed.

End Gather.

(** ** The primitives on the shapes [img_to_patch] builds *)

Section Primitives.
Context {A : Type}.
Implicit Types (t x : Tensor A).

Lemma nonneg_no_invalid (dims : list Z) :
  Forall (fun d => 0 <= d)%Z dims ->
  existsb (fun d => d <? -1)%Z dims = false.
Proof.
  induction 1 as [|d dims Hd _ IH]; [reflexivity|].
  cbn [existsb]. rewrite IH, orb_false_r. apply Z.ltb_ge. lia.
Qed.

Lemma nonneg_no_inferred (dims : list Z) :
  Forall (fun d => 0 <= d)%Z dims ->
  count_occ Z.eq_dec dims (-1)%Z = 0.
Proof.
  induction 1 as [|d dims Hd _ IH]; [reflexivity|].
  rewrite count_occ_cons_neq by lia. exact IH.
Qed.

(** With no negative dimension, [reshape] only compares element counts. *)
Lemma reshape_nonneg t (dims : list Z) :
  Forall (fun d => 0 <= d)%Z dims ->
  reshape t dims =
    if numel (map Z.to_nat dims) =? numel (shape t)
    then Ok (mkTensor (map Z.to_nat dims) (data t))
    else Raise RuntimeError.
Proof.
  intros Hd. unfold reshape.
  rewrite (nonneg_no_invalid _ Hd), (nonneg_no_inferred _ Hd). reflexivity.
Qed.

(** [reshape], [flatten] never touch the elements. *)
Lemma reshape_data t dims t' : reshape t dims = Ok t' -> data t' = data t.
Proof.
  unfold reshape. intros H.
  repeat match type of H with
         | (if ?c then _ else _) = _ => destruct c
         | match ?c with _ => _ end = _ => destruct c
         end; try discriminate; injection H as <-; reflexivity.
Qed.

Lemma flatten_data t s e t' : flatten t s e = Ok t' -> data t' = data t.
Proof.
  unfold flatten. intros H.
  repeat match type of H with
         | (if ?c then _ else _) = _ => destruct c
         | match ?c with _ => _ end = _ => destruct c
         end; try discriminate; injection H as <-; reflexivity.
Qed.

Lemma flatten_shape t s e t' :
  shape t <> [] ->
  flatten t s e = Ok t' ->
  shape t' =
    firstn s (shape t) ++
    numel (firstn (S e - s) (skipn s (shape t))) :: skipn (S e) (shape t).
Proof.
  unfold flatten. intros Hne H.
  destruct (shape t) as [|d sh]; [congruence|].
  repeat match type of H with
         | (if ?c then _ else _) = _ => destruct c
         end; try discriminate; injection H as <-; reflexivity.
Qed.

(** The axis order [(0, 2, 4, 1, 3, 5)] on a 6-axis tensor. *)
Lemma permute_patch_axes t a0 a1 a2 a3 a4 a5 :
  shape t = [a0; a1; a2; a3; a4; a5] ->
  exists t',
    permute t [0; 2; 4; 1; 3; 5] = Ok t' /\
    shape t' = [a0; a2; a4; a1; a3; a5] /\
    data t' =
      gather (data t)
        (map (fun k =>
                ravel [a0; a1; a2; a3; a4; a5]
                  (permute_index [0; 2; 4; 1; 3; 5]
                     (unravel [a0; a2; a4; a1; a3; a5] k)))
             (seq 0 (numel [a0; a2; a4; a1; a3; a5]))).
Proof.
  intros Hs. unfold permute. rewrite Hs.
  eexists. split; [reflexivity|]. split; reflexivity.
Qed.

Lemma permute_index_patch_axes i0 i1 i2 i3 i4 i5 :
  permute_index [0; 2; 4; 1; 3; 5] [i0; i2; i4; i1; i3; i5]
  = [i0; i1; i2; i3; i4; i5].
Proof. reflexivity. Qed.

End Primitives.

(** * What [img_to_patch] computes *)

Section Run.
Context {A : Type}.
Implicit Types (t x : Tensor A).

Lemma torch_div_trunc_nat (n P : nat) :
  0 < P ->
  torch_div_trunc (Z.of_nat n) (Z.of_nat P) = Ok (Z.of_nat (n / P)).
Proof.
  intros HP. unfold torch_div_trunc.
  destruct (Z.eqb_spec (Z.of_nat P) 0); [lia|].
  rewrite Z.quot_div_nonneg by lia. rewrite Nat2Z.inj_div. reflexivity.
Qed.

(** The whole run for a positive patch size: the only test that can fail is
    the element count of [reshape]. *)
Lemma img_to_patch_run x B C a2 a3 (P : nat) fc :
  shape x = [B; C; a2; a3] -> 0 < P ->
  img_to_patch x (Z.of_nat P) fc =
    if numel [B; C; a3 / P; P; a2 / P; P] =? numel [B; C; a2; a3] then
      Ok (mkTensor
            (if default true fc
             then [B; a3 / P * (a2 / P); C * P * P]
             else [B; a3 / P * (a2 / P); C; P; P])
            (gather (data x) (patch_offsets B C (a3 / P) (a2 / P) P)))
    else Raise RuntimeError.
Proof.
  intros Hs HP. unfold img_to_patch. rewrite Hs.
  rewrite !torch_div_trunc_nat by assumption. cbn [mbind Res_bind].
  rewrite reshape_nonneg by (repeat constructor; lia).
  cbn [map]. rewrite !Nat2Z.id, Hs.
  destruct (numel [B; C; a3 / P; P; a2 / P; P] =? numel [B; C; a2; a3]);
    [|reflexivity].
  cbn [mbind Res_bind].
  destruct (permute_patch_axes
              (mkTensor [B; C; a3 / P; P; a2 / P; P] (data x))
              B C (a3 / P) P (a2 / P) P eq_refl) as (t' & -> & Hs' & Hd').
  destruct t' as [sh' d']. cbn [shape data] in Hs', Hd'. subst sh' d'.
  cbn [mbind Res_bind]. unfold flatten, patch_offsets.
  destruct (default true fc);
    cbn [mbind Res_bind shape data length Nat.max Nat.ltb Nat.leb firstn
           skipn app Nat.sub numel];
    rewrite ?Nat.mul_1_r, ?Nat.mul_assoc; reflexivity.
Qed.

(** When the patch size divides both spatial sizes the count is kept. *)
Lemma numel_split B C a2 a3 P :
  a2 mod P = 0 -> a3 mod P = 0 ->
  numel [B; C; a3 / P; P; a2 / P; P] = numel [B; C; a2; a3].
Proof.
  intros H2 H3. cbn [numel].
  pose proof (Nat.div_mod_eq a2 P). pose proof (Nat.div_mod_eq a3 P).
  rewrite H2 in *. rewrite H3 in *.
  set (g2 := a2 / P) in *. set (g3 := a3 / P) in *.
  replace a2 with (P * g2) at 2 by lia. replace a3 with (P * g3) at 2 by lia.
  lia.
Qed.

End Run.

(** ** Where each element of the result comes from *)

Section Layout.
Context {A : Type}.
Implicit Types (l : list A) (t x : Tensor A).

Lemma numel_patch_axes B C g3 g2 P :
  numel [B; g3; g2; C; P; P] = numel [B; C; g3; P; g2; P].
Proof. cbn [numel]. lia. Qed.

Lemma length_patch_offsets B C g3 g2 P :
  length (patch_offsets B C g3 g2 P) = numel [B; g3; g2; C; P; P].
Proof. unfold patch_offsets. rewrite length_map, length_seq. reflexivity. Qed.

Lemma length_gather_patch_offsets l B C g3 g2 P :
  length l = numel [B; C; g3; P; g2; P] ->
  length (gather l (patch_offsets B C g3 g2 P)) = numel [B; g3; g2; C; P; P].
Proof.
  intros Hl. destruct l as [|d0 l].
  - cbn [gather length] in *. rewrite numel_patch_axes. exact Hl.
  - rewrite length_gather by discriminate. apply length_patch_offsets.
Qed.

(** Element [(b, g, d, c, i, j)] of the permuted tensor is element
    [(b, c, g, i, d, j)] of the reshaped one. *)
Lemma gather_patch_offsets l B C g3 g2 P b g d c i j :
  length l = numel [B; C; g3; P; g2; P] ->
  b < B -> g < g3 -> d < g2 -> c < C -> i < P -> j < P ->
  nth_error (gather l (patch_offsets B C g3 g2 P))
            (ravel [B; g3; g2; C; P; P] [b; g; d; c; i; j])
  = nth_error l (ravel [B; C; g3; P; g2; P] [b; c; g; i; d; j]).
Proof.
  intros Hl Hb Hg Hd Hc Hi Hj.
  assert (Hnew : in_bounds [B; g3; g2; C; P; P] [b; g; d; c; i; j] = true).
  { cbn [in_bounds]. rewrite !andb_true_iff, !Nat.ltb_lt. tauto. }
  assert (Hold : in_bounds [B; C; g3; P; g2; P] [b; c; g; i; d; j] = true).
  { cbn [in_bounds]. rewrite !andb_true_iff, !Nat.ltb_lt. tauto. }
  unfold patch_offsets.
  rewrite (nth_error_gather l
             (fun k => ravel [B; C; g3; P; g2; P]
                         (permute_index [0; 2; 4; 1; 3; 5]
                            (unravel [B; g3; g2; C; P; P] k)))).
  - rewrite (unravel_ravel _ _ Hnew), permute_index_patch_axes. reflexivity.
  - apply ravel_lt, Hnew.
  - rewrite (unravel_ravel _ _ Hnew), permute_index_patch_axes, Hl.
    apply ravel_lt, Hold.
Qed.

End Layout.

(** ** The run when the patch size divides both sizes *)

Lemma img_to_patch_ok {A} (x : Tensor A) B C H W (P : nat) fc :
  shape x = [B; C; H; W] -> 0 < P -> H mod P = 0 -> W mod P = 0 ->
  img_to_patch x (Z.of_nat P) fc =
    Ok (mkTensor
          (if default true fc
           then [B; W / P * (H / P); C * P * P]
           else [B; W / P * (H / P); C; P; P])
          (gather (data x) (patch_offsets B C (W / P) (H / P) P))).
Proof.
  intros Hs HP HH HW.
  rewrite (img_to_patch_run x B C H W P fc Hs HP).
  rewrite (numel_split B C H W P HH HW), Nat.eqb_refl. reflexivity.
Qed.

(** ** Every run in closed form *)

Lemma count_occ_twice (l1 l2 l3 : list Z) (z : Z) :
  2 <= count_occ Z.eq_dec (l1 ++ z :: l2 ++ z :: l3) z.
Proof.
  rewrite count_occ_app, count_occ_cons_eq by reflexivity.
  rewrite count_occ_app, count_occ_cons_eq by reflexivity. lia.
Qed.

(** A patch size that is zero or negative is refused by the library: by the
    division for zero, by [reshape] otherwise, where it occurs twice as a
    dimension. *)
Lemma img_to_patch_nonpositive {A} (x : Tensor A) B C a2 a3 (P : Z) fc :
  shape x = [B; C; a2; a3] -> (P <= 0)%Z ->
  img_to_patch x P fc = Raise RuntimeError.
Proof.
  intros Hs HP. unfold img_to_patch, torch_div_trunc. rewrite Hs.
  destruct (Z.eqb_spec P 0) as [|Hne]; [reflexivity|].
  cbn [mbind Res_bind]. unfold reshape.
  destruct (existsb _ _) eqn:Hex; [reflexivity|].
  assert (P = (-1)%Z) as ->.
  { cbn [existsb] in Hex. rewrite !orb_false_iff in Hex.
    destruct Hex as (_ & _ & _ & Hlt & _). apply Z.ltb_ge in Hlt. lia. }
  pose proof (count_occ_twice
                [Z.of_nat B; Z.of_nat C; (Z.of_nat a3 ÷ -1)%Z]
                [(Z.of_nat a2 ÷ -1)%Z] [] (-1)%Z) as Hc.
  cbn [app] in Hc.
  destruct (count_occ _ _ _) as [|[|n]]; [lia|lia|reflexivity].
Qed.

Lemma img_to_patch_closed {A} (x : Tensor A) (P : Z) fc :
  img_to_patch x P fc =
    match shape x with
    | [B; C; a2; a3] =>
        let p := Z.to_nat P in
        if (0 <? P)%Z &&
           (numel [B; C; a3 / p; p; a2 / p; p] =? numel [B; C; a2; a3])
        then
          Ok (mkTensor
                (if default true fc
                 then [B; a3 / p * (a2 / p); C * p * p]
                 else [B; a3 / p * (a2 / p); C; p; p])
                (gather (data x) (patch_offsets B C (a3 / p) (a2 / p) p)))
        else Raise RuntimeError
    | _ => Raise ValueError
    end.
Proof.
  destruct (shape x) as [|B [|C [|a2 [|a3 [|? ?]]]]] eqn:Hs;
    try (unfold img_to_patch; rewrite Hs; reflexivity).
  cbv zeta. destruct (Z.ltb_spec 0 P) as [HP|HP]; cbn [andb].
  - rewrite <- (Z2Nat.id P) at 1 by lia.
    apply img_to_patch_run; [assumption|lia].
  - apply (img_to_patch_nonpositive x B C a2 a3); assumption.
Qed.

(** For a positive patch size the element count survives the split exactly
    when the batch is empty or both spatial sizes are multiples of it. *)
Lemma numel_split_iff B C a2 a3 P :
  0 < P ->
  numel [B; C; a3 / P; P; a2 / P; P] = numel [B; C; a2; a3] <->
  (B * C * a2 * a3 = 0 \/ (a2 mod P = 0 /\ a3 mod P = 0)).
Proof.
  intros HP.
  pose proof (Nat.div_mod_eq a2 P) as E2. pose proof (Nat.div_mod_eq a3 P) as E3.
  split.
  - intros Hn. cbn [numel] in Hn.
    destruct (Nat.eq_dec (B * C * a2 * a3) 0) as [|Hne]; [left; assumption|].
    right.
    set (g2 := a2 / P) in *. set (g3 := a3 / P) in *.
    set (r2 := a2 mod P) in *. set (r3 := a3 mod P) in *.
    assert (HBC : 0 < B * C) by nia.
    assert (Hprod : (P * g3) * (P * g2) = a3 * a2) by nia.
    assert (Hz : (P * g3) * r2 + r3 * (P * g2) + r3 * r2 = 0) by nia.
    assert (0 < a2) by nia. assert (0 < a3) by nia.
    split.
    + destruct (Nat.eq_dec r2 0) as [|Hr]; [assumption|]. exfalso.
      assert (P * g3 = 0) by nia. assert (r3 = 0) by nia. lia.
    + destruct (Nat.eq_dec r3 0) as [|Hr]; [assumption|]. exfalso.
      assert (P * g2 = 0) by nia. assert (r2 = 0) by nia. lia.
  - intros [Hz|[H2 H3]]; [|apply numel_split; assumption].
    cbn [numel]. rewrite !Nat.mul_1_r.
    assert (Hcases : B = 0 \/ C = 0 \/ a2 = 0 \/ a3 = 0) by nia.
    destruct Hcases as [-> | [-> | [-> | ->]]].
    + reflexivity.
    + lia.
    + rewrite Nat.Div0.div_0_l. lia.
    + rewrite Nat.Div0.div_0_l. lia.
Qed.

(** ** Indices of six-axis tensors *)

Ltac bounds :=
  cbn [in_bounds];
  repeat match goal with
         | |- (_ && _)%bool = true => apply andb_true_intro; split
         | |- (_ <? _) = true => apply Nat.ltb_lt
         end;
  try reflexivity; try nia.

Lemma in_bounds_6 a0 a1 a2 a3 a4 a5 idx :
  in_bounds [a0; a1; a2; a3; a4; a5] idx = true ->
  exists i0 i1 i2 i3 i4 i5,
    idx = [i0; i1; i2; i3; i4; i5] /\
    i0 < a0 /\ i1 < a1 /\ i2 < a2 /\ i3 < a3 /\ i4 < a4 /\ i5 < a5.
Proof.
  intros Hb.
  do 6 (destruct idx as [|? idx];
        [repeat (apply in_bounds_cons in Hb as [_ Hb]); discriminate|]).
  destruct idx; [|repeat (apply in_bounds_cons in Hb as [_ Hb]); discriminate].
  repeat (apply in_bounds_cons in Hb as [? Hb]).
  do 6 eexists. split; [reflexivity|]. tauto.
Qed.

Lemma nth_error_lt_Some {A} (l : list A) k :
  k < length l -> exists v, nth_error l k = Some v.
Proof.
  intros Hk. destruct (nth_error l k) as [v|] eqn:E; [eauto|].
  apply nth_error_None in E. lia.
Qed.

Lemma img_to_patch_wf {A} (x : Tensor A) B C H W (P : nat) :
  wf x -> shape x = [B; C; H; W] -> 0 < P -> H mod P = 0 -> W mod P = 0 ->
  length (gather (data x) (patch_offsets B C (W / P) (H / P) P))
  = numel [B; W / P; H / P; C; P; P].
Proof.
  intros Hwf Hs HP HH HW. apply length_gather_patch_offsets.
  unfold wf in Hwf. rewrite Hwf, Hs. symmetry. apply numel_split; assumption.
Qed.

Lemma list_eq_by_index {A} (l l' : list A) n :
  length l = n -> length l' = n ->
  (forall k, k < n -> nth_error l k = nth_error l' k) ->
  l = l'.
Proof.
  intros Hl Hl' Hk. apply nth_error_ext. intros k.
  destruct (Nat.lt_ge_cases k n) as [Hlt|Hge]; [auto|].
  rewrite (proj2 (nth_error_None l k)) by lia.
  rewrite (proj2 (nth_error_None l' k)) by lia. reflexivity.
Qed.

(** Every offset of the permuted tensor is the offset of a multi-index. *)
Lemma offset_index_6 a0 a1 a2 a3 a4 a5 k :
  k < numel [a0; a1; a2; a3; a4; a5] ->
  exists i0 i1 i2 i3 i4 i5,
    k = ravel [a0; a1; a2; a3; a4; a5] [i0; i1; i2; i3; i4; i5] /\
    i0 < a0 /\ i1 < a1 /\ i2 < a2 /\ i3 < a3 /\ i4 < a4 /\ i5 < a5.
Proof.
  intros Hk.
  destruct (in_bounds_6 _ _ _ _ _ _ _ (in_bounds_unravel _ _ Hk))
    as (i0 & i1 & i2 & i3 & i4 & i5 & Hidx & Hb).
  exists i0, i1, i2, i3, i4, i5. split; [|exact Hb].
  rewrite <- Hidx. symmetry. apply ravel_unravel, Hk.
Qed.

(** With one patch per image the permutation moves nothing. *)
Lemma single_patch_identity {A} (l : list A) B C P :
  length l = numel [B; C; P; P] ->
  gather l (patch_offsets B C 1 1 P) = l.
Proof.
  intros Hl.
  assert (Hl' : length l = numel [B; C; 1; P; 1; P])
    by (rewrite Hl; cbn [numel]; lia).
  apply (list_eq_by_index _ _ (numel [B; 1; 1; C; P; P])).
  - apply length_gather_patch_offsets, Hl'.
  - rewrite Hl'. symmetry. apply numel_patch_axes.
  - intros k Hk.
    destruct (offset_index_6 _ _ _ _ _ _ _ Hk)
      as (b & g & d & c & i & j & -> & Hb & Hg & Hd & Hc & Hi & Hj).
    rewrite gather_patch_offsets by assumption.
    f_equal. assert (g = 0) by lia. assert (d = 0) by lia. subst g d.
    cbn [ravel numel]. lia.
Qed.

(** * Runs on the object store *)

Section StoreFacts.
Context {A : Type}.
Implicit Types (s : gmap nat (Tensor A)) (t : Tensor A).

Lemma st_new_extends s t : s ⊆ <[fresh (dom s) := t]> s.
Proof.
  apply insert_subseteq, not_elem_of_dom, is_fresh.
Qed.

Lemma st_bind_read r (k : Tensor A -> St (A:=A) nat) s t :
  s !! r = Some t -> st_bind (st_read r) k s = k t s.
Proof. intros Hr. unfold st_bind, st_read. rewrite Hr. reflexivity. Qed.

Lemma st_bind_lift {T} (v : Res T) (k : T -> St (A:=A) nat) s :
  st_bind (st_lift v) k s =
    match v with Ok v => k v s | Raise e => (Raise e, s) end.
Proof. unfold st_bind, st_lift. destruct v; reflexivity. Qed.

(** A method call allocates its result and changes nothing else. *)
Lemma st_method_run (f : Tensor A -> Res (Tensor A)) r s t :
  s !! r = Some t ->
  st_method f r s =
    match f t with
    | Ok t' => (Ok (fresh (dom s)), <[fresh (dom s) := t']> s)
    | Raise e => (Raise e, s)
    end.
Proof.
  intros Hr. unfold st_method. rewrite (st_bind_read _ _ _ _ Hr).
  unfold st_bind, st_lift, st_new. destruct (f t); reflexivity.
Qed.

Lemma st_bind_method (f : Tensor A -> Res (Tensor A)) r
    (k : nat -> St (A:=A) nat) s t :
  s !! r = Some t ->
  st_bind (st_method f r) k s =
    match f t with
    | Ok t' => k (fresh (dom s)) (<[fresh (dom s) := t']> s)
    | Raise e => (Raise e, s)
    end.
Proof.
  intros Hr. unfold st_bind at 1. rewrite (st_method_run _ _ _ _ Hr).
  destruct (f t); reflexivity.
Qed.

(** The run on the store computes [img_to_patch] of the tensor the argument
    denotes, and only adds objects. *)
Lemma img_to_patch_st_spec (x : nat) (P : Z) fc s t :
  s !! x = Some t ->
  s ⊆ snd (img_to_patch_st x P fc s) /\
  st_value (img_to_patch_st x P fc s) =
    match img_to_patch t P fc with
    | Ok t' => Ok (Some t')
    | Raise e => Raise e
    end.
Proof.
  intros Hx. unfold img_to_patch_st, img_to_patch.
  rewrite (st_bind_read _ _ _ _ Hx).
  destruct (shape t) as [|B [|C [|a2 [|a3 [|? ?]]]]];
    try (split; reflexivity).
  rewrite !st_bind_lift.
  destruct (torch_div_trunc (Z.of_nat a3) P) as [h'|e];
    [|split; reflexivity].
  rewrite !st_bind_lift.
  destruct (torch_div_trunc (Z.of_nat a2) P) as [w'|e];
    [|split; reflexivity].
  cbn [mbind Res_bind].
  rewrite (st_bind_method _ _ _ _ _ Hx).
  destruct (reshape t _) as [t1|e]; [|split; reflexivity].
  cbn [mbind Res_bind].
  pose proof (st_new_extends s t1) as Hs1.
  set (s1 := <[fresh (dom s) := t1]> s) in *.
  rewrite (st_bind_method _ _ _ _ t1) by apply lookup_insert_eq.
  destruct (permute t1 _) as [t2|e]; [|split; [assumption|reflexivity]].
  cbn [mbind Res_bind].
  pose proof (st_new_extends s1 t2) as Hs2.
  set (s2 := <[fresh (dom s1) := t2]> s1) in *.
  rewrite (st_bind_method _ _ _ _ t2) by apply lookup_insert_eq.
  destruct (flatten t2 1 2) as [t3|e];
    [|split; [etrans; eassumption|reflexivity]].
  cbn [mbind Res_bind].
  pose proof (st_new_extends s2 t3) as Hs3.
  set (s3 := <[fresh (dom s2) := t3]> s2) in *.
  assert (Hsub3 : s ⊆ s3) by (etrans; [eassumption|]; etrans; eassumption).
  destruct (default true fc).
  - rewrite (st_method_run _ _ _ t3) by apply lookup_insert_eq.
    destruct (flatten t3 2 4) as [t4|e]; cbn [snd st_value].
    + split; [etrans; [eassumption|apply st_new_extends]|].
      rewrite lookup_insert_eq. reflexivity.
    + split; [assumption|reflexivity].
  - unfold st_ret. cbn [snd st_value]. split; [assumption|].
    unfold s3. rewrite lookup_insert_eq. reflexivity.
Qed.

End StoreFacts.

(** * Patches and image blocks *)

Section Blocks.
Context {A : Type}.
Implicit Types (x t : Tensor A).

(** What the code computes for every batch: the patch grid of the batch
    read with its two spatial sizes exchanged.  [a2] and [a3] are the sizes
    of axes 2 and 3 of the input. *)
Lemma img_to_patch_block x B C g2 g3 (P : nat) :
  wf x -> shape x = [B; C; g2 * P; g3 * P] -> 0 < P ->
  exists tg,
    img_to_patch x (Z.of_nat P) (Some false) = Ok tg /\
    shape tg = [B; g3 * g2; C; P; P] /\
    wf tg /\
    forall b g d c i j,
      b < B -> g < g3 -> d < g2 -> c < C -> i < P -> j < P ->
      get tg [b; g * g2 + d; c; i; j]
      = get (mkTensor [B; C; g3 * P; g2 * P] (data x))
            [b; c; g * P + i; d * P + j].
Proof.
  intros Hwf Hs HP.
  assert (H2 : (g2 * P) mod P = 0) by apply Nat.Div0.mod_mul.
  assert (H3 : (g3 * P) mod P = 0) by apply Nat.Div0.mod_mul.
  assert (Q2 : g2 * P / P = g2) by (apply Nat.div_mul; lia).
  assert (Q3 : g3 * P / P = g3) by (apply Nat.div_mul; lia).
  pose proof (img_to_patch_wf x B C _ _ P Hwf Hs HP H2 H3) as Hlen.
  rewrite (img_to_patch_ok x B C _ _ P _ Hs HP H2 H3).
  cbn [default from_option id]. rewrite Q2, Q3 in *.
  eexists. split; [reflexivity|]. cbn [shape]. split; [reflexivity|].
  split.
  { unfold wf. cbn [shape data]. rewrite Hlen. cbn [numel]. lia. }
  intros b g d c i j Hb Hg Hd Hc Hi Hj. unfold get. cbn [shape data].
  replace (in_bounds [B; g3 * g2; C; P; P] [b; g * g2 + d; c; i; j])
    with true by (symmetry; bounds).
  replace (in_bounds [B; C; g3 * P; g2 * P] [b; c; g * P + i; d * P + j])
    with true by (symmetry; bounds).
  replace (ravel [B; g3 * g2; C; P; P] [b; g * g2 + d; c; i; j])
    with (ravel [B; g3; g2; C; P; P] [b; g; d; c; i; j])
    by (cbn [ravel numel]; ring).
  rewrite gather_patch_offsets; try assumption.
  - f_equal. cbn [ravel numel]. ring.
  - unfold wf in Hwf. rewrite Hwf, Hs. cbn [numel]. ring.
Qed.

(** For a square image the exchange is invisible: patch [g * (S/P) + d] is
    the block in row [g], column [d] of the block grid. *)
Lemma img_to_patch_block_square x B C g (P : nat) :
  wf x -> shape x = [B; C; g * P; g * P] -> 0 < P ->
  exists tg,
    img_to_patch x (Z.of_nat P) (Some false) = Ok tg /\
    shape tg = [B; g * g; C; P; P] /\
    forall b r q c i j,
      b < B -> r < g -> q < g -> c < C -> i < P -> j < P ->
      get tg [b; r * g + q; c; i; j] = get x [b; c; r * P + i; q * P + j].
Proof.
  intros Hwf Hs HP.
  destruct (img_to_patch_block x B C g g P Hwf Hs HP)
    as (tg & Hrun & Hsh & _ & Hget).
  exists tg. split; [assumption|]. split; [assumption|].
  intros b r q c i j Hb Hr Hq Hc Hi Hj.
  rewrite (Hget b r q c i j) by assumption.
  rewrite <- Hs. destruct x; reflexivity.
Qed.

End Blocks.

Section RoundTrip.
Context {A : Type}.
Implicit Types (x t : Tensor A) (l : list A).

Lemma permute_ok t dims :
  length dims = length (shape t) ->
  check_axes (length (shape t)) [] dims = Ok tt ->
  permute t dims =
    Ok (mkTensor (map (fun a => nth a (shape t) 0) dims)
          (gather (data t)
             (map (fun k =>
                     ravel (shape t)
                       (permute_index dims
                          (unravel (map (fun a => nth a (shape t) 0) dims) k)))
                  (seq 0 (numel (map (fun a => nth a (shape t) 0) dims)))))).
Proof.
  intros Hl Hp. unfold permute. rewrite Hl, Nat.eqb_refl, Hp. reflexivity.
Qed.

Lemma reshape_nat t (sh : list nat) :
  numel sh = numel (shape t) ->
  reshape t (map Z.of_nat sh) = Ok (mkTensor sh (data t)).
Proof.
  intros Hn. rewrite reshape_nonneg.
  - rewrite map_map. rewrite (map_ext _ (fun n => n)) by apply Nat2Z.id.
    rewrite map_id, Hn, Nat.eqb_refl. reflexivity.
  - clear Hn. induction sh as [|n sh IH]; cbn [map]; constructor;
      [lia|exact IH].
Qed.

(** Undoing the permutation: splitting the patch axis of the permuted data
    and putting the axes back gives the data before the permutation. *)
Lemma gather_patch_offsets_inverse l B C g3 g2 P :
  length l = numel [B; C; g3; P; g2; P] ->
  gather (gather l (patch_offsets B C g3 g2 P))
    (map (fun k =>
            ravel [B; g3; g2; C; P; P]
              (permute_index [0; 3; 1; 4; 2; 5]
                 (unravel [B; C; g3; P; g2; P] k)))
         (seq 0 (numel [B; C; g3; P; g2; P])))
  = l.
Proof.
  intros Hl.
  pose proof (length_gather_patch_offsets l B C g3 g2 P Hl) as Hd.
  set (d := gather l (patch_offsets B C g3 g2 P)) in *.
  apply (list_eq_by_index _ _ (numel [B; C; g3; P; g2; P])); [|assumption|].
  - destruct d as [|d0 d'] eqn:Ed.
    + cbn [gather length] in *. rewrite <- numel_patch_axes. exact Hd.
    + rewrite length_gather by discriminate.
      rewrite length_map, length_seq. reflexivity.
  - intros k Hk.
    destruct (offset_index_6 _ _ _ _ _ _ _ Hk)
      as (b & c & g & i & e & j & Ek & Hb & Hc & Hg & Hi & He & Hj).
    assert (Hold : in_bounds [B; C; g3; P; g2; P] [b; c; g; i; e; j] = true)
      by bounds.
    assert (Hnew : in_bounds [B; g3; g2; C; P; P] [b; g; e; c; i; j] = true)
      by bounds.
    rewrite nth_error_gather; [|assumption|].
    + rewrite Ek, (unravel_ravel _ _ Hold).
      change (permute_index [0; 3; 1; 4; 2; 5] [b; c; g; i; e; j])
        with [b; g; e; c; i; j].
      unfold d. apply gather_patch_offsets; assumption.
    + rewrite Ek, (unravel_ravel _ _ Hold), Hd.
      change (permute_index [0; 3; 1; 4; 2; 5] [b; c; g; i; e; j])
        with [b; g; e; c; i; j].
      apply ravel_lt, Hnew.
Qed.

(** Reassembling the patches of the code on the grid of the exchanged image
    gives back the elements of the input. *)
Lemma spec_reassemble_img_to_patch x B C g2 g3 (P : nat) :
  wf x -> shape x = [B; C; g2 * P; g3 * P] -> 0 < P ->
  exists tg,
    img_to_patch x (Z.of_nat P) (Some false) = Ok tg /\
    spec_reassemble tg (g3 * P) (g2 * P)
    = Ok (mkTensor [B; C; g3 * P; g2 * P] (data x)).
Proof.
  intros Hwf Hs HP.
  assert (H2 : (g2 * P) mod P = 0) by apply Nat.Div0.mod_mul.
  assert (H3 : (g3 * P) mod P = 0) by apply Nat.Div0.mod_mul.
  assert (Q2 : g2 * P / P = g2) by (apply Nat.div_mul; lia).
  assert (Q3 : g3 * P / P = g3) by (apply Nat.div_mul; lia).
  assert (Hl : length (data x) = numel [B; C; g3; P; g2; P]).
  { unfold wf in Hwf. rewrite Hwf, Hs. cbn [numel]. ring. }
  rewrite (img_to_patch_ok x B C _ _ P _ Hs HP H2 H3).
  cbn [default from_option id]. rewrite Q2, Q3.
  eexists. split; [reflexivity|].
  unfold spec_reassemble. cbn [shape]. rewrite Q2, Q3.
  rewrite (reshape_nat _ [B; g3; g2; C; P; P]) by (cbn [shape numel]; ring).
  cbn [mbind Res_bind].
  rewrite permute_ok by reflexivity. cbn [mbind Res_bind].
  rewrite (reshape_nat _ [B; C; g3 * P; g2 * P])
    by (cbn [shape numel map nth]; ring).
  cbn [shape data map nth].
  f_equal. f_equal. apply gather_patch_offsets_inverse, Hl.
Qed.

(** For a square image this is the round trip. *)
Lemma spec_reassemble_img_to_patch_square x B C g (P : nat) :
  wf x -> shape x = [B; C; g * P; g * P] -> 0 < P ->
  exists tg,
    img_to_patch x (Z.of_nat P) (Some false) = Ok tg /\
    spec_reassemble tg (g * P) (g * P) = Ok x.
Proof.
  intros Hwf Hs HP.
  destruct (spec_reassemble_img_to_patch x B C g g P Hwf Hs HP)
    as (tg & Hrun & Hre).
  exists tg. split; [assumption|]. rewrite Hre, <- Hs.
  destruct x; reflexivity.
Qed.

End RoundTrip.

(** * Every element is used once *)

Section Bijection.
Context {A : Type}.
Implicit Types (x t : Tensor A) (l : list A).

Lemma patch_offsets_nth B C g3 g2 P b g d c i j :
  b < B -> g < g3 -> d < g2 -> c < C -> i < P -> j < P ->
  nth_error (patch_offsets B C g3 g2 P)
            (ravel [B; g3; g2; C; P; P] [b; g; d; c; i; j])
  = Some (ravel [B; C; g3; P; g2; P] [b; c; g; i; d; j]).
Proof.
  intros Hb Hg Hd Hc Hi Hj.
  assert (Hnew : in_bounds [B; g3; g2; C; P; P] [b; g; d; c; i; j] = true)
    by bounds.
  unfold patch_offsets. rewrite nth_error_map, nth_error_seq.
  pose proof (ravel_lt _ _ Hnew) as Hlt. apply Nat.ltb_lt in Hlt.
  rewrite Hlt. cbn [option_map Nat.add].
  rewrite (unravel_ravel _ _ Hnew). reflexivity.
Qed.

Lemma patch_offsets_permutation B C g3 g2 P :
  Permutation (seq 0 (numel [B; C; g3; P; g2; P])) (patch_offsets B C g3 g2 P).
Proof.
  apply NoDup_Permutation_bis.
  - apply seq_NoDup.
  - rewrite length_patch_offsets, length_seq, numel_patch_axes. reflexivity.
  - intros m Hm. apply in_seq in Hm as [_ Hm]. cbn [Nat.add] in Hm.
    destruct (offset_index_6 _ _ _ _ _ _ _ Hm)
      as (b & c & g & i & d & j & -> & Hb & Hc & Hg & Hi & Hd & Hj).
    eapply nth_error_In. apply patch_offsets_nth; assumption.
Qed.

Lemma gather_seq l : gather l (seq 0 (length l)) = l.
Proof.
  destruct l as [|d0 l']; [reflexivity|]. unfold gather.
  set (l := d0 :: l').
  apply (list_eq_by_index _ _ (length l)); [|reflexivity|].
  - rewrite length_map, length_seq. reflexivity.
  - intros k Hk. rewrite nth_error_map, nth_error_seq.
    apply Nat.ltb_lt in Hk as Hk'. rewrite Hk'. cbn [option_map Nat.add].
    symmetry. apply nth_error_nth'. assumption.
Qed.

Lemma gather_permutation l offs offs' :
  Permutation offs offs' -> Permutation (gather l offs) (gather l offs').
Proof.
  destruct l as [|d0 l']; [reflexivity|]. unfold gather. apply Permutation_map.
Qed.

(** The elements of the output are the elements of the input, each taken
    once, whatever the two spatial sizes. *)
Lemma img_to_patch_permutation x B C H W (P : nat) fc :
  wf x -> shape x = [B; C; H; W] -> 0 < P -> H mod P = 0 -> W mod P = 0 ->
  exists t, img_to_patch x (Z.of_nat P) fc = Ok t /\
            Permutation (data x) (data t).
Proof.
  intros Hwf Hs HP HH HW.
  rewrite (img_to_patch_ok x B C H W P fc Hs HP HH HW).
  eexists. split; [reflexivity|]. cbn [data].
  rewrite <- (gather_seq (data x)) at 1.
  apply gather_permutation.
  unfold wf in Hwf. rewrite Hwf, Hs, <- (numel_split B C H W P HH HW).
  apply patch_offsets_permutation.
Qed.

End Bijection.

(** * The feature form and the grid form *)

(** The feature form against the grid form of the same call: position
    c*P*P + i*P + j of a feature vector is element (c, i, j) of the patch
    with the same number. *)
Lemma img_to_patch_feature_of_grid :
  forall (A : Type) (x : Tensor A) (B C H W P : nat),
    wf x -> shape x = [B; C; H; W] -> 0 < P -> H mod P = 0 -> W mod P = 0 ->
    exists tg tf,
      img_to_patch x (Z.of_nat P) (Some false) = Ok tg /\
      img_to_patch x (Z.of_nat P) (Some true) = Ok tf /\
      shape tf = [B; H / P * (W / P); C * P * P] /\
      forall b n c i j,
        b < B -> n < H / P * (W / P) -> c < C -> i < P -> j < P ->
        exists v,
          get tf [b; n; c * P * P + i * P + j] = Some v /\
          get tg [b; n; c; i; j] = Some v.
Proof.
  intros A x B C H W P Hwf Hs HP HH HW.
  pose proof (img_to_patch_wf x B C H W P Hwf Hs HP HH HW) as Hlen.
  do 2 eexists.
  rewrite !(img_to_patch_ok x B C H W P _ Hs HP HH HW).
  cbn [default from_option id].
  split; [reflexivity|]. split; [reflexivity|]. cbn [shape].
  split; [rewrite (Nat.mul_comm (W / P)); reflexivity|].
  intros b n c i j Hb Hn Hc Hi Hj.
  set (d := gather (data x) (patch_offsets B C (W / P) (H / P) P)) in *.
  unfold get. cbn [shape data].
  assert (Hg : in_bounds [B; W / P * (H / P); C; P; P] [b; n; c; i; j] = true)
    by bounds.
  assert (Hf : in_bounds [B; W / P * (H / P); C * P * P]
                 [b; n; c * P * P + i * P + j] = true) by bounds.
  rewrite Hg, Hf.
  assert (Heq : ravel [B; W / P * (H / P); C * P * P]
                  [b; n; c * P * P + i * P + j]
                = ravel [B; W / P * (H / P); C; P; P] [b; n; c; i; j]).
  { cbn [ravel numel]. lia. }
  rewrite Heq.
  destruct (nth_error_lt_Some d
              (ravel [B; W / P * (H / P); C; P; P] [b; n; c; i; j]))
    as [v Hv].
  { rewrite Hlen.
    replace (numel [B; W / P; H / P; C; P; P])
      with (numel [B; W / P * (H / P); C; P; P]) by (cbn [numel]; lia).
    apply ravel_lt, Hg. }
  exists v. split; exact Hv.
Qed.

(** * Properties of the specification *)

(** ** Output shapes *)

(** C1. For a batch of shape (B, C, H, W) and a positive patch size P that
    divides H and W, [img_to_patch] returns a tensor of shape
    (B, (H/P)*(W/P), C, P, P) without channel flattening and of shape
    (B, (H/P)*(W/P), C*P*P) with it; a batch of shape (2, 3, 32, 32) with
    P = 4 gives the shapes (2, 64, 3, 4, 4) and (2, 64, 48). *)
Theorem img_to_patch_shape :
  (forall (A : Type) (x : Tensor A) (B C H W P : nat),
      shape x = [B; C; H; W] -> 0 < P -> H mod P = 0 -> W mod P = 0 ->
      exists tg tf,
        img_to_patch x (Z.of_nat P) (Some false) = Ok tg /\
        shape tg = [B; H / P * (W / P); C; P; P] /\
        img_to_patch x (Z.of_nat P) (Some true) = Ok tf /\
        shape tf = [B; H / P * (W / P); C * P * P]) /\
  (forall (A : Type) (x : Tensor A),
      shape x = [2; 3; 32; 32] ->
      exists tg tf,
        img_to_patch x 4 (Some false) = Ok tg /\ shape tg = [2; 64; 3; 4; 4] /\
        img_to_patch x 4 (Some true) = Ok tf /\ shape tf = [2; 64; 48]).
Proof.
  assert (Hgen : forall (A : Type) (x : Tensor A) (B C H W P : nat),
      shape x = [B; C; H; W] -> 0 < P -> H mod P = 0 -> W mod P = 0 ->
      exists tg tf,
        img_to_patch x (Z.of_nat P) (Some false) = Ok tg /\
        shape tg = [B; H / P * (W / P); C; P; P] /\
        img_to_patch x (Z.of_nat P) (Some true) = Ok tf /\
        shape tf = [B; H / P * (W / P); C * P * P]).
  { intros A x B C H W P Hs HP HH HW.
    do 2 eexists.
    rewrite !(img_to_patch_ok x B C H W P _ Hs HP HH HW).
    cbn [default shape].
    rewrite (Nat.mul_comm (W / P) (H / P)). repeat split; reflexivity. }
  split; [exact Hgen|].
  intros A x Hs.
  destruct (Hgen A x 2 3 32 32 4 Hs) as (tg & tf & H1 & H2 & H3 & H4);
    [lia | reflexivity | reflexivity |].
  exists tg, tf. repeat split; assumption.
Qed.

Lemma img_to_patch_shape_witness :
  exists tg tf,
    img_to_patch (arange [2; 3; 32; 32]) 4 (Some false) = Ok tg /\
    shape tg = [2; 64; 3; 4; 4] /\
    img_to_patch (arange [2; 3; 32; 32]) 4 (Some true) = Ok tf /\
    shape tf = [2; 64; 48].
Proof.
  destruct (proj1 img_to_patch_shape nat (arange [2; 3; 32; 32]) 2 3 32 32 4)
    as (tg & tf & H1 & H2 & H3 & H4);
    [reflexivity | lia | reflexivity | reflexivity |].
  exists tg, tf. repeat split; assumption.
Defined.

(** ** Round trip *)

(** C2. Round trip, evaluated on a batch of shape (1, 1, 4, 2) with P = 2:
    reassembling the grid-form output on the (H/P, W/P) = (2, 1) patch grid
    does not give the input back; the pixel of row 1, column 0 is 2 in the
    input and 4 after the round trip. *)
Theorem img_to_patch_roundtrip_nonsquare :
  img_to_patch (arange [1; 1; 4; 2]) 2 (Some false)
  = Ok (mkTensor [1; 2; 1; 2; 2] [0; 1; 4; 5; 2; 3; 6; 7]) /\
  spec_reassemble (mkTensor [1; 2; 1; 2; 2] [0; 1; 4; 5; 2; 3; 6; 7]) 4 2
  = Ok (mkTensor [1; 1; 4; 2] [0; 1; 4; 5; 2; 3; 6; 7]) /\
  mkTensor [1; 1; 4; 2] [0; 1; 4; 5; 2; 3; 6; 7] <> arange [1; 1; 4; 2] /\
  get (mkTensor [1; 1; 4; 2] [0; 1; 4; 5; 2; 3; 6; 7]) [0; 0; 1; 0] = Some 4 /\
  get (arange [1; 1; 4; 2]) [0; 0; 1; 0] = Some 2.
Proof.
  split; [reflexivity|]. split; [reflexivity|].
  split; [discriminate|]. split; reflexivity.
Qed.

(** ** Patch order *)

(** C3. Patch order, evaluated on a batch of shape (1, 1, 4, 2) with P = 2
    (two blocks, one above the other): patch 0 of the output holds rows 0
    and 2 of the image, not its top-left 2x2 block (rows 0 and 1), and
    patch W/P = 1 holds rows 1 and 3, not the first block of the second row
    of blocks (rows 2 and 3). *)
Theorem img_to_patch_blocks_nonsquare :
  exists tg,
    img_to_patch (arange [1; 1; 4; 2]) 2 (Some false) = Ok tg /\
    map (get tg) [[0; 0; 0; 0; 0]; [0; 0; 0; 0; 1]; [0; 0; 0; 1; 0]; [0; 0; 0; 1; 1]]
    = [Some 0; Some 1; Some 4; Some 5] /\
    map (get (arange [1; 1; 4; 2])) [[0; 0; 0; 0]; [0; 0; 0; 1]; [0; 0; 1; 0]; [0; 0; 1; 1]]
    = [Some 0; Some 1; Some 2; Some 3] /\
    map (get tg) [[0; 1; 0; 0; 0]; [0; 1; 0; 0; 1]; [0; 1; 0; 1; 0]; [0; 1; 0; 1; 1]]
    = [Some 2; Some 3; Some 6; Some 7] /\
    map (get (arange [1; 1; 4; 2])) [[0; 0; 2; 0]; [0; 0; 2; 1]; [0; 0; 3; 0]; [0; 0; 3; 1]]
    = [Some 4; Some 5; Some 6; Some 7].
Proof.
  eexists. split; [reflexivity|]. repeat split.
Qed.

(** ** Errors *)

(** An empty batch is reshaped whatever its height and width: H = 30 is not
    a multiple of P = 4, and the call returns. *)
Lemma img_to_patch_empty_batch_returns :
  wf (mkTensor [0; 3; 30; 30] (@nil nat)) /\
  30 mod 4 <> 0 /\
  img_to_patch (mkTensor [0; 3; 30; 30] (@nil nat)) 4 None
  = Ok (mkTensor [0; 49; 48] []).
Proof.
  split; [reflexivity|]. split; [discriminate|reflexivity].
Qed.

(** C4, amended. For a patch size P with 0 < P < 2^63 (the range of the
    library's integers): an input that does not have 4 axes raises the
    [ValueError] of the unpacking; a 4-axis batch with at least one element
    raises the [RuntimeError] of [reshape] exactly when H or W is not a
    multiple of P, and the call returns exactly when both are.  Both
    exceptions are shape errors; the exception is the result of the call
    and of the caller's forward pass.  A non-empty batch with H = 30 and
    P = 4 raises [RuntimeError].  (A batch without elements is not covered:
    it can return although P divides neither H nor W.) *)
Theorem img_to_patch_raises_iff :
  forall (A : Type) (x : Tensor A) (P : nat) (fc : option bool),
    0 < P -> (Z.of_nat P < 2 ^ 63)%Z ->
    (length (shape x) <> 4 ->
       img_to_patch x (Z.of_nat P) fc = Raise ValueError) /\
    (forall B C H W,
       shape x = [B; C; H; W] -> 0 < B * C * H * W ->
       (img_to_patch x (Z.of_nat P) fc = Raise RuntimeError <->
          (H mod P <> 0 \/ W mod P <> 0)) /\
       (is_ok (img_to_patch x (Z.of_nat P) fc) = true <->
          (H mod P = 0 /\ W mod P = 0))) /\
    (forall e, img_to_patch x (Z.of_nat P) fc = Raise e ->
       ShapeError e = true /\
       forall self, patch_size self = Z.of_nat P -> fc = None ->
         VisionTransformer_forward_tokens self x = Raise e) /\
    (forall B C W, shape x = [B; C; 30; W] -> 0 < B -> 0 < C -> 0 < W ->
       P = 4 -> img_to_patch x 4 fc = Raise RuntimeError).
Proof.
  intros A x P fc HP _.
  assert (Hfour : forall B C H W,
       shape x = [B; C; H; W] -> 0 < B * C * H * W ->
       (img_to_patch x (Z.of_nat P) fc = Raise RuntimeError <->
          (H mod P <> 0 \/ W mod P <> 0)) /\
       (is_ok (img_to_patch x (Z.of_nat P) fc) = true <->
          (H mod P = 0 /\ W mod P = 0))).
  { intros B C H W Hs Hpos. rewrite img_to_patch_closed, Hs.
    cbv zeta. rewrite Nat2Z.id.
    replace (0 <? Z.of_nat P)%Z with true by (symmetry; apply Z.ltb_lt; lia).
    cbn [andb].
    destruct (Nat.eqb_spec (numel [B; C; W / P; P; H / P; P])
                (numel [B; C; H; W])) as [Hn|Hn]; cbn [is_ok];
      rewrite numel_split_iff in Hn by assumption.
    - assert (Hdiv : H mod P = 0 /\ W mod P = 0)
        by (destruct Hn as [Hz|Hd]; [lia|exact Hd]).
      split; split; solve [discriminate | tauto | intros; reflexivity].
    - assert (Hdiv : H mod P <> 0 \/ W mod P <> 0).
      { destruct (Nat.eq_dec (H mod P) 0) as [H2|H2]; [|tauto].
        destruct (Nat.eq_dec (W mod P) 0) as [H3|H3]; [|tauto].
        tauto. }
      split; split; solve [discriminate | tauto | intros; reflexivity]. }
  split; [|split; [exact Hfour|split]].
  - intros Hlen. rewrite img_to_patch_closed.
    destruct (shape x) as [|B [|C [|a2 [|a3 [|? ?]]]]]; try reflexivity.
    cbn [length] in Hlen. lia.
  - intros e He. split.
    + rewrite img_to_patch_closed in He.
      destruct (shape x) as [|B [|C [|a2 [|a3 [|? ?]]]]];
        try (injection He as <-; reflexivity).
      cbv zeta in He. destruct (_ && _)%bool; [discriminate|].
      injection He as <-. reflexivity.
    + intros self Hself ->. unfold VisionTransformer_forward_tokens.
      rewrite Hself, He. reflexivity.
  - intros B C W Hs HB HC HW ->.
    change 4%Z with (Z.of_nat 4).
    apply (Hfour B C 30 W Hs); [nia|]. left. discriminate.
Qed.

Lemma img_to_patch_raises_iff_witness :
  img_to_patch (mkTensor [3] [1; 2; 3]) (Z.of_nat 4) None = Raise ValueError /\
  img_to_patch (arange [1; 1; 30; 30]) (Z.of_nat 4) None = Raise RuntimeError /\
  is_ok (img_to_patch (arange [1; 1; 32; 32]) (Z.of_nat 4) None) = true /\
  VisionTransformer_forward_tokens (VisionTransformer_init 256 1 4)
    (arange [1; 1; 30; 30]) = Raise RuntimeError.
Proof.
  split; [|split; [|split]].
  - apply (proj1 (img_to_patch_raises_iff nat (mkTensor [3] [1; 2; 3]) 4 None
                    ltac:(lia) eq_refl)).
    discriminate.
  - apply (proj1 (proj2 (img_to_patch_raises_iff nat (arange [1; 1; 30; 30]) 4
                           None ltac:(lia) eq_refl)) 1 1 30 30 eq_refl);
      [lia|]. left. discriminate.
  - apply (proj1 (proj2 (img_to_patch_raises_iff nat (arange [1; 1; 32; 32]) 4
                           None ltac:(lia) eq_refl)) 1 1 32 32 eq_refl);
      [lia|]. split; reflexivity.
  - apply (proj2 (proj1 (proj2 (proj2 (img_to_patch_raises_iff nat
                                         (arange [1; 1; 30; 30]) 4 None
                                         ltac:(lia) eq_refl)))
                    RuntimeError eq_refl));
      reflexivity.
Defined.

(** ** Feature order *)

(** C5. Feature order, evaluated on a batch of shape (1, 1, 4, 2) with
    P = 2 and channel flattening: the feature vectors have length
    C*P*P = 4, but position c*P*P + i*P + j = 2 (c = 0, i = 1, j = 0) of
    the vector of patch 0 holds 4, where row 1, column 0 of the top-left
    block of the image is 2; the vector of patch 0 is rows 0 and 2 of the
    image, not the block made of rows 0 and 1. *)
Theorem img_to_patch_feature_order_nonsquare :
  exists tf,
    img_to_patch (arange [1; 1; 4; 2]) 2 (Some true) = Ok tf /\
    shape tf = [1; 2; 1 * 2 * 2] /\
    get tf [0; 0; 0 * 2 * 2 + 1 * 2 + 0] = Some 4 /\
    get (arange [1; 1; 4; 2]) [0; 0; 0 * 2 + 1; 0 * 2 + 0] = Some 2 /\
    map (get tf) [[0; 0; 0]; [0; 0; 1]; [0; 0; 2]; [0; 0; 3]]
    = [Some 0; Some 1; Some 4; Some 5] /\
    map (get (arange [1; 1; 4; 2]))
        [[0; 0; 0; 0]; [0; 0; 0; 1]; [0; 0; 1; 0]; [0; 0; 1; 1]]
    = [Some 0; Some 1; Some 2; Some 3].
Proof.
  eexists. split; [reflexivity|]. repeat split.
Qed.

(** ** A single patch *)

(** C6. When H = W = P there is one patch per image, and the flattened
    output is the input with each image laid out as one feature vector of
    length C*P*P: the same elements in the same order. *)
Theorem img_to_patch_single_patch :
  forall (A : Type) (x : Tensor A) (B C P : nat),
    wf x -> shape x = [B; C; P; P] -> 0 < P ->
    img_to_patch x (Z.of_nat P) (Some false)
      = Ok (mkTensor [B; 1; C; P; P] (data x)) /\
    img_to_patch x (Z.of_nat P) (Some true)
      = Ok (mkTensor [B; 1; C * P * P] (data x)) /\
    forall b c i j, b < B -> c < C -> i < P -> j < P ->
      get (mkTensor [B; 1; C * P * P] (data x)) [b; 0; c * P * P + i * P + j]
      = get x [b; c; i; j].
Proof.
  intros A x B C P Hwf Hs HP.
  assert (HPP : P mod P = 0) by (apply Nat.Div0.mod_same).
  assert (Hq : P / P = 1) by (apply Nat.div_same; lia).
  rewrite !(img_to_patch_ok x B C P P P _ Hs HP HPP HPP).
  cbn [default from_option id]. rewrite !Hq.
  rewrite single_patch_identity by (unfold wf in Hwf; rewrite Hwf, Hs; reflexivity).
  repeat split.
  intros b c i j Hb Hc Hi Hj. unfold get. rewrite Hs. cbn [shape data].
  replace (in_bounds [B; 1; C * P * P] [b; 0; c * P * P + i * P + j])
    with true by (symmetry; bounds).
  replace (in_bounds [B; C; P; P] [b; c; i; j]) with true by (symmetry; bounds).
  f_equal. cbn [ravel numel]. ring.
Qed.

Lemma img_to_patch_single_patch_witness :
  img_to_patch (arange [2; 3; 2; 2]) (Z.of_nat 2) (Some true)
  = Ok (mkTensor [2; 1; 3 * 2 * 2] (seq 0 24)).
Proof.
  apply (img_to_patch_single_patch nat (arange [2; 3; 2; 2]) 2 3 2);
    [reflexivity | reflexivity | lia].
Defined.

(** ** No side effect *)

(** C7. A call that returns leaves every object of the store as it was, the
    argument included: the tensor [x] denotes has the same shape and the
    same elements after the call, and the returned tensor is a new
    object. *)
Theorem img_to_patch_no_side_effect :
  forall (A : Type) (s : gmap nat (Tensor A)) (x : nat) (P : Z)
         (fc : option bool) (r : nat) (s' : gmap nat (Tensor A)),
    img_to_patch_st x P fc s = (Ok r, s') ->
    (exists t, s !! x = Some t /\ s' !! x = Some t) /\
    (forall l t, s !! l = Some t -> s' !! l = Some t) /\
    s !! r = None.
Proof.
  intros A s x P fc r s' Hrun.
  destruct (s !! x) as [t|] eqn:Hx.
  - destruct (img_to_patch_st_spec x P fc s t Hx) as [Hsub Hval].
    rewrite Hrun in Hsub, Hval. cbn [snd st_value] in Hsub, Hval.
    split; [exists t; split; [reflexivity|exact (lookup_weaken _ _ _ _ Hx Hsub)]|].
    split; [intros l t0 Hl; exact (lookup_weaken _ _ _ _ Hl Hsub)|].
    revert Hrun. unfold img_to_patch_st.
    rewrite (st_bind_read _ _ _ _ Hx).
    destruct (shape t) as [|B [|C [|a2 [|a3 [|? ?]]]]]; try discriminate.
    rewrite !st_bind_lift.
    destruct (torch_div_trunc (Z.of_nat a3) P) as [h'|e]; [|discriminate].
    rewrite !st_bind_lift.
    destruct (torch_div_trunc (Z.of_nat a2) P) as [w'|e]; [|discriminate].
    rewrite (st_bind_method _ _ _ _ _ Hx).
    destruct (reshape t _) as [t1|e]; [|discriminate].
    pose proof (st_new_extends s t1) as Hs1.
    set (s1 := <[fresh (dom s) := t1]> s) in *.
    rewrite (st_bind_method _ _ _ _ t1) by apply lookup_insert_eq.
    destruct (permute t1 _) as [t2|e]; [|discriminate].
    pose proof (st_new_extends s1 t2) as Hs2.
    set (s2 := <[fresh (dom s1) := t2]> s1) in *.
    rewrite (st_bind_method _ _ _ _ t2) by apply lookup_insert_eq.
    destruct (flatten t2 1 2) as [t3|e]; [|discriminate].
    pose proof (st_new_extends s2 t3) as Hs3.
    set (s3 := <[fresh (dom s2) := t3]> s2) in *.
    assert (Hfresh : forall (m m' : gmap nat (Tensor A)),
               m ⊆ m' -> m !! fresh (dom m') = None).
    { intros m m' Hm. destruct (m !! fresh (dom m')) as [t0|] eqn:E; [|reflexivity].
      pose proof (lookup_weaken _ _ _ _ E Hm) as E'.
      pose proof (is_fresh (dom m')) as Hf.
      apply not_elem_of_dom in Hf. congruence. }
    destruct (default true fc).
    + rewrite (st_method_run _ _ _ t3) by apply lookup_insert_eq.
      destruct (flatten t3 2 4) as [t4|e]; [|discriminate].
      intros [= <- <-]. apply Hfresh.
      etrans; [eassumption|]. etrans; eassumption.
    + unfold st_ret. intros [= <- <-]. apply Hfresh.
      etrans; eassumption.
  - exfalso. revert Hrun. unfold img_to_patch_st, st_bind, st_read.
    rewrite Hx. discriminate.
Qed.

Lemma img_to_patch_no_side_effect_witness :
  (exists t,
     ({[0 := arange [1; 1; 2; 2]]} : gmap nat (Tensor nat)) !! 0 = Some t /\
     snd (img_to_patch_st 0 2 None {[0 := arange [1; 1; 2; 2]]}) !! 0 = Some t) /\
  (forall l t,
     ({[0 := arange [1; 1; 2; 2]]} : gmap nat (Tensor nat)) !! l = Some t ->
     snd (img_to_patch_st 0 2 None {[0 := arange [1; 1; 2; 2]]}) !! l = Some t) /\
  ({[0 := arange [1; 1; 2; 2]]} : gmap nat (Tensor nat)) !! 4 = None.
Proof.
  apply (img_to_patch_no_side_effect nat {[0 := arange [1; 1; 2; 2]]} 0 2 None 4).
  reflexivity.
Defined.

(** ** Determinism *)

(** C8. The result depends on the tensor the argument denotes, the patch
    size and the flag only: two calls agreeing on these, in any two stores
    and through any two references, both raise the same exception or both
    return equal tensors, the one [img_to_patch] gives as a function. *)
Theorem img_to_patch_deterministic :
  forall (A : Type) (s1 s2 : gmap nat (Tensor A)) (x1 x2 : nat)
         (t1 t2 : Tensor A) (P1 P2 : Z) (fc1 fc2 : option bool),
    s1 !! x1 = Some t1 -> s2 !! x2 = Some t2 ->
    t1 = t2 -> P1 = P2 -> fc1 = fc2 ->
    img_to_patch t1 P1 fc1 = img_to_patch t2 P2 fc2 /\
    st_value (img_to_patch_st x1 P1 fc1 s1)
    = st_value (img_to_patch_st x2 P2 fc2 s2) /\
    st_value (img_to_patch_st x1 P1 fc1 s1)
    = match img_to_patch t1 P1 fc1 with
      | Ok t' => Ok (Some t')
      | Raise e => Raise e
      end.
Proof.
  intros A s1 s2 x1 x2 t1 t2 P1 P2 fc1 fc2 H1 H2 <- <- <-.
  destruct (img_to_patch_st_spec x1 P1 fc1 s1 t1 H1) as [_ E1].
  destruct (img_to_patch_st_spec x2 P1 fc1 s2 t1 H2) as [_ E2].
  split; [reflexivity|]. split; [congruence|exact E1].
Qed.

Lemma img_to_patch_deterministic_witness :
  st_value (img_to_patch_st 0 2 None {[0 := arange [1; 1; 2; 2]]})
  = st_value (img_to_patch_st 7 2 None
                {[3 := arange [5]; 7 := arange [1; 1; 2; 2]]}).
Proof.
  apply (img_to_patch_deterministic nat
           {[0 := arange [1; 1; 2; 2]]}
           {[3 := arange [5]; 7 := arange [1; 1; 2; 2]]}
           0 7 (arange [1; 1; 2; 2]) (arange [1; 1; 2; 2]) 2 2 None None);
    reflexivity.
Defined.

(** ** The two output forms *)

(** C9. Whenever [img_to_patch] succeeds, its feature-form output is its
    grid-form output with the last three axes (C, P, P) merged into one axis
    of length C*P*P, the elements in the same order; one form succeeds
    exactly when the other does. *)
Theorem img_to_patch_feature_is_merged_grid :
  forall (A : Type) (x : Tensor A) (P : Z),
    (forall tf, img_to_patch x P (Some true) = Ok tf ->
       exists tg, img_to_patch x P (Some false) = Ok tg /\
                  spec_merge_features tg = Some tf) /\
    (forall tg, img_to_patch x P (Some false) = Ok tg ->
       exists tf, img_to_patch x P (Some true) = Ok tf /\
                  spec_merge_features tg = Some tf).
Proof.
  intros A x P. rewrite !img_to_patch_closed.
  destruct (shape x) as [|B [|C [|a2 [|a3 [|? ?]]]]];
    try (split; intros ? ?; discriminate).
  cbv zeta. cbn [default from_option id].
  destruct (_ && _)%bool; [|split; intros ? ?; discriminate].
  split; intros t [= <-]; eexists; (split; [reflexivity|]); reflexivity.
Qed.

Lemma img_to_patch_feature_is_merged_grid_witness :
  exists tg,
    img_to_patch (arange [1; 1; 4; 4]) 2 (Some false) = Ok tg /\
    spec_merge_features tg
    = Some (mkTensor [1; 4; 4]
              [0; 1; 4; 5; 2; 3; 6; 7; 8; 9; 12; 13; 10; 11; 14; 15]).
Proof.
  apply (proj1 (img_to_patch_feature_is_merged_grid nat (arange [1; 1; 4; 4]) 2)).
  reflexivity.
Defined.

(** ** The default flag and the caller *)

(** C10. Without the [flatten_channels] argument [img_to_patch] behaves as
    with [True] and returns the feature form (B, (H/P)*(W/P), C*P*P).
    [VisionTransformer.forward] passes only [x] and [self.patch_size]; the
    last axis of what it receives has the input width
    num_channels * patch_size^2 of its linear input layer. *)
Theorem forward_receives_features :
  forall (A : Type) (x : Tensor A) (B C H W P : nat) (embed_dim : Z),
    shape x = [B; C; H; W] -> 0 < P -> H mod P = 0 -> W mod P = 0 ->
    (forall x' P', img_to_patch (A:=A) x' P' None = img_to_patch x' P' (Some true)) /\
    exists tf,
      img_to_patch x (Z.of_nat P) None = Ok tf /\
      shape tf = [B; H / P * (W / P); C * P * P] /\
      let self := VisionTransformer_init embed_dim (Z.of_nat C) (Z.of_nat P) in
      in_features (input_layer self) = Z.of_nat (C * P * P) /\
      VisionTransformer_forward_tokens self x = Ok (tf, B, H / P * (W / P)).
Proof.
  intros A x B C H W P embed_dim Hs HP HH HW.
  split; [reflexivity|].
  eexists. rewrite (img_to_patch_ok x B C H W P None Hs HP HH HW).
  cbn [default from_option id]. rewrite (Nat.mul_comm (W / P)).
  split; [reflexivity|]. split; [reflexivity|].
  assert (Hin : (Z.of_nat C * Z.of_nat P ^ 2)%Z = Z.of_nat (C * P * P)).
  { rewrite Z.pow_2_r, !Nat2Z.inj_mul. ring. }
  cbv zeta. cbn [VisionTransformer_init in_features input_layer].
  split; [exact Hin|].
  unfold VisionTransformer_forward_tokens.
  cbn [VisionTransformer_init patch_size in_features input_layer].
  rewrite (img_to_patch_ok x B C H W P None Hs HP HH HW).
  cbn [default from_option id mbind Res_bind shape].
  rewrite Hin, Z.eqb_refl, (Nat.mul_comm (W / P)). reflexivity.
Qed.

Lemma forward_receives_features_witness :
  exists tf,
    img_to_patch (arange [2; 3; 32; 32]) (Z.of_nat 4) None = Ok tf /\
    shape tf = [2; 32 / 4 * (32 / 4); 3 * 4 * 4] /\
    let self := VisionTransformer_init 256 (Z.of_nat 3) (Z.of_nat 4) in
    in_features (input_layer self) = Z.of_nat (3 * 4 * 4) /\
    VisionTransformer_forward_tokens self (arange [2; 3; 32; 32])
    = Ok (tf, 2, 32 / 4 * (32 / 4)).
Proof.
  apply (forward_receives_features nat (arange [2; 3; 32; 32]) 2 3 32 32 4 256);
    [reflexivity | lia | reflexivity | reflexivity].
Defined.

(** * Further properties of [img_to_patch] and of its caller *)

Section Further.
Context {A : Type}.
Implicit Types (x y t : Tensor A) (l : list A).

(** What a returning call has checked and what it returns. *)
Lemma img_to_patch_Ok_inv x (P : Z) fc t :
  img_to_patch x P fc = Ok t ->
  exists B C a2 a3 p,
    shape x = [B; C; a2; a3] /\ P = Z.of_nat p /\ 0 < p /\
    numel [B; C; a3 / p; p; a2 / p; p] = numel [B; C; a2; a3] /\
    t = mkTensor
          (if default true fc
           then [B; a3 / p * (a2 / p); C * p * p]
           else [B; a3 / p * (a2 / p); C; p; p])
          (gather (data x) (patch_offsets B C (a3 / p) (a2 / p) p)).
Proof.
  rewrite img_to_patch_closed.
  destruct (shape x) as [|B [|C [|a2 [|a3 [|? ?]]]]]; try discriminate.
  cbv zeta.
  destruct (Z.ltb_spec 0 P) as [HP|HP]; cbn [andb]; [|discriminate].
  destruct (Nat.eqb_spec (numel [B; C; a3 / Z.to_nat P; Z.to_nat P;
                                 a2 / Z.to_nat P; Z.to_nat P])
              (numel [B; C; a2; a3])) as [Hn|Hn]; [|discriminate].
  intros [= <-]. exists B, C, a2, a3, (Z.to_nat P).
  split; [reflexivity|]. split; [lia|]. split; [lia|]. split; [exact Hn|].
  reflexivity.
Qed.

Lemma gather_map {B : Type} (f : A -> B) l offs :
  gather (map f l) offs = map f (gather l offs).
Proof.
  destruct l as [|d0 l']; [reflexivity|]. cbn [map]. unfold gather.
  rewrite map_map. apply map_ext. intros o.
  change (f d0 :: map f l') with (map f (d0 :: l')). apply map_nth.
Qed.

End Further.

(** ** Patch sizes that are not positive *)

(** X1. On a batch with 4 axes a patch size P with -2^63 <= P <= 0 (zero
    or negative, within the range of the library's integers) always raises
    [RuntimeError]: zero is refused by the division, a negative size by
    [reshape], where it appears twice as a dimension. *)
Theorem img_to_patch_patch_size_not_positive :
  forall (A : Type) (x : Tensor A) (P : Z) (fc : option bool),
    length (shape x) = 4 -> (- 2 ^ 63 <= P)%Z -> (P <= 0)%Z ->
    img_to_patch x P fc = Raise RuntimeError.
Proof.
  intros A x P fc Hlen _ HP.
  destruct (shape x) as [|B [|C [|a2 [|a3 [|? ?]]]]] eqn:Hs;
    try discriminate.
  exact (img_to_patch_nonpositive x B C a2 a3 P fc Hs HP).
Qed.

Lemma img_to_patch_patch_size_not_positive_witness :
  img_to_patch (arange [1; 1; 4; 4]) (-2) None = Raise RuntimeError /\
  img_to_patch (arange [1; 1; 4; 4]) 0 None = Raise RuntimeError.
Proof.
  split.
  - apply (img_to_patch_patch_size_not_positive nat (arange [1; 1; 4; 4]) (-2));
      [reflexivity | discriminate | lia].
  - apply (img_to_patch_patch_size_not_positive nat (arange [1; 1; 4; 4]) 0);
      [reflexivity | discriminate | lia].
Defined.

(** ** What every returning call keeps *)

(** X2. The result of a returning call has as many elements as its shape
    says, whenever the argument has. *)
Theorem img_to_patch_result_wf :
  forall (A : Type) (x t : Tensor A) (P : Z) (fc : option bool),
    wf x -> img_to_patch x P fc = Ok t -> wf t.
Proof.
  intros A x t P fc Hwf Hrun.
  destruct (img_to_patch_Ok_inv x P fc t Hrun)
    as (B & C & a2 & a3 & p & Hs & -> & Hp & Hn & ->).
  unfold wf in *. cbn [shape data].
  rewrite length_gather_patch_offsets
    by (rewrite Hwf, Hs, <- Hn; reflexivity).
  destruct (default true fc); cbn [numel]; ring.
Qed.

Lemma img_to_patch_result_wf_witness :
  wf (mkTensor [1; 4; 4]
        [0; 1; 4; 5; 2; 3; 6; 7; 8; 9; 12; 13; 10; 11; 14; 15]).
Proof.
  apply (img_to_patch_result_wf nat (arange [1; 1; 4; 4]) _ 2 None);
    reflexivity.
Defined.

(** X3. The elements of the result of a returning call are the elements of
    the argument, each taken once: nothing is dropped and nothing is
    repeated, whatever the two spatial sizes are. *)
Theorem img_to_patch_keeps_elements :
  forall (A : Type) (x t : Tensor A) (P : Z) (fc : option bool),
    wf x -> img_to_patch x P fc = Ok t -> Permutation (data x) (data t).
Proof.
  intros A x t P fc Hwf Hrun.
  destruct (img_to_patch_Ok_inv x P fc t Hrun)
    as (B & C & a2 & a3 & p & Hs & -> & Hp & Hn & ->).
  cbn [data]. rewrite <- (gather_seq (data x)) at 1.
  apply gather_permutation.
  unfold wf in Hwf. rewrite Hwf, Hs, <- Hn.
  apply patch_offsets_permutation.
Qed.

Lemma img_to_patch_keeps_elements_witness :
  Permutation (seq 0 8) [0; 1; 4; 5; 2; 3; 6; 7].
Proof.
  apply (img_to_patch_keeps_elements nat (arange [1; 1; 4; 2])
           (mkTensor [1; 2; 1; 2; 2] [0; 1; 4; 5; 2; 3; 6; 7]) 2 (Some false));
    reflexivity.
Defined.

(** X4. No information is lost: two batches of the same shape that give
    the same result are the same batch. *)
Theorem img_to_patch_injective :
  forall (A : Type) (x y t : Tensor A) (P : Z) (fc : option bool),
    wf x -> wf y -> shape x = shape y ->
    img_to_patch x P fc = Ok t -> img_to_patch y P fc = Ok t ->
    x = y.
Proof.
  intros A x y t P fc Hx Hy Hsh Hrx Hry.
  destruct (img_to_patch_Ok_inv x P fc t Hrx)
    as (B & C & a2 & a3 & p & Hs & -> & Hp & Hn & ->).
  destruct (img_to_patch_Ok_inv y _ fc _ Hry)
    as (B' & C' & a2' & a3' & p' & Hs' & HP' & _ & _ & Ht).
  apply Nat2Z.inj in HP'. subst p'.
  rewrite <- Hsh, Hs in Hs'. injection Hs' as <- <- <- <-.
  injection Ht as Hd.
  assert (Hlx : length (data x) = numel [B; C; a3 / p; p; a2 / p; p])
    by (unfold wf in Hx; rewrite Hx, Hs, <- Hn; reflexivity).
  assert (Hly : length (data y) = numel [B; C; a3 / p; p; a2 / p; p])
    by (unfold wf in Hy; rewrite Hy, <- Hsh, Hs, <- Hn; reflexivity).
  pose proof (gather_patch_offsets_inverse _ _ _ _ _ _ Hlx) as Ix.
  pose proof (gather_patch_offsets_inverse _ _ _ _ _ _ Hly) as Iy.
  rewrite Hd in Ix. rewrite Ix in Iy.
  destruct x as [sx dx], y as [sy dy]. cbn [shape data] in *. congruence.
Qed.

Lemma img_to_patch_injective_witness :
  arange [1; 1; 4; 2] = mkTensor [1; 1; 4; 2] [0; 1; 2; 3; 4; 5; 6; 7].
Proof.
  apply (img_to_patch_injective nat (arange [1; 1; 4; 2])
           (mkTensor [1; 1; 4; 2] [0; 1; 2; 3; 4; 5; 6; 7])
           (mkTensor [1; 2; 1; 2; 2] [0; 1; 4; 5; 2; 3; 6; 7]) 2 (Some false));
    reflexivity.
Defined.

(** ** Where the elements go *)

Lemma multiple_of (n P : nat) :
  0 < P -> n mod P = 0 -> exists g, n = g * P /\ n / P = g.
Proof.
  intros HP Hm. exists (n / P). split; [|reflexivity].
  pose proof (Nat.div_mod_eq n P). lia.
Qed.

Lemma get_in_bounds_Some {A} (t : Tensor A) idx :
  wf t -> in_bounds (shape t) idx = true -> exists v, get t idx = Some v.
Proof.
  intros Hwf Hb. unfold get. rewrite Hb. apply nth_error_lt_Some.
  rewrite Hwf. apply ravel_lt, Hb.
Qed.

(** X5. The layout for every height and width.  The code names axis 2 [W]
    and axis 3 [H]; what it returns for a batch of shape (B, C, H, W) is
    the patch grid of the same elements read as a batch of shape
    (B, C, W, H): patch [g * (H/P) + d] holds, at channel c, row i,
    column j, the element (b, c, g*P + i, d*P + j) of that reading, for
    g < W/P and d < H/P. *)
Theorem img_to_patch_layout :
  forall (A : Type) (x : Tensor A) (B C H W P : nat),
    wf x -> shape x = [B; C; H; W] -> 0 < P -> H mod P = 0 -> W mod P = 0 ->
    exists tg,
      img_to_patch x (Z.of_nat P) (Some false) = Ok tg /\
      forall b g d c i j,
        b < B -> g < W / P -> d < H / P -> c < C -> i < P -> j < P ->
        exists v,
          get tg [b; g * (H / P) + d; c; i; j] = Some v /\
          get (mkTensor [B; C; W; H] (data x)) [b; c; g * P + i; d * P + j]
          = Some v.
Proof.
  intros A x B C H W P Hwf Hs HP HH HW.
  destruct (multiple_of H P HP HH) as (g2 & -> & Q2).
  destruct (multiple_of W P HP HW) as (g3 & -> & Q3).
  rewrite Q2, Q3.
  destruct (img_to_patch_block x B C g2 g3 P Hwf Hs HP)
    as (tg & Hrun & Hsh & Hwfg & Hget).
  exists tg. split; [exact Hrun|].
  intros b g d c i j Hb Hg Hd Hc Hi Hj.
  destruct (get_in_bounds_Some tg [b; g * g2 + d; c; i; j] Hwfg) as [v Hv].
  { rewrite Hsh. bounds. }
  exists v. split; [exact Hv|].
  rewrite <- (Hget b g d c i j) by assumption. exact Hv.
Qed.

Lemma img_to_patch_layout_witness :
  exists tg,
    img_to_patch (arange [1; 1; 4; 2]) (Z.of_nat 2) (Some false) = Ok tg /\
    forall b g d c i j,
      b < 1 -> g < 2 / 2 -> d < 4 / 2 -> c < 1 -> i < 2 -> j < 2 ->
      exists v,
        get tg [b; g * (4 / 2) + d; c; i; j] = Some v /\
        get (mkTensor [1; 1; 2; 4] (data (arange [1; 1; 4; 2])))
            [b; c; g * 2 + i; d * 2 + j]
        = Some v.
Proof.
  apply (img_to_patch_layout nat (arange [1; 1; 4; 2]) 1 1 4 2 2);
    [reflexivity | reflexivity | lia | reflexivity | reflexivity].
Defined.

(** X6. Square images.  When H = W = S, pixel (h, w) of channel c is in
    patch (h / P) * (S / P) + w / P, at row h mod P and column w mod P of
    that patch: the patches are the P x P blocks of the image in row-major
    order. *)
Theorem img_to_patch_square_pixel :
  forall (A : Type) (x : Tensor A) (B C S P : nat),
    wf x -> shape x = [B; C; S; S] -> 0 < P -> S mod P = 0 ->
    exists tg,
      img_to_patch x (Z.of_nat P) (Some false) = Ok tg /\
      shape tg = [B; S / P * (S / P); C; P; P] /\
      forall b c h w,
        b < B -> c < C -> h < S -> w < S ->
        exists v,
          get x [b; c; h; w] = Some v /\
          get tg [b; h / P * (S / P) + w / P; c; h mod P; w mod P] = Some v.
Proof.
  intros A x B C S P Hwf Hs HP HS.
  destruct (multiple_of S P HP HS) as (g & -> & Q).
  rewrite Q.
  destruct (img_to_patch_block_square x B C g P Hwf Hs HP)
    as (tg & Hrun & Hsh & Hget).
  exists tg. split; [exact Hrun|]. split; [exact Hsh|].
  intros b c h w Hb Hc Hh Hw.
  destruct (get_in_bounds_Some x [b; c; h; w] Hwf) as [v Hv].
  { rewrite Hs. bounds. }
  exists v. split; [exact Hv|].
  assert (Hhd : h / P < g) by (apply Nat.Div0.div_lt_upper_bound; lia).
  assert (Hwd : w / P < g) by (apply Nat.Div0.div_lt_upper_bound; lia).
  assert (Hhm : h mod P < P) by (apply Nat.mod_upper_bound; lia).
  assert (Hwm : w mod P < P) by (apply Nat.mod_upper_bound; lia).
  rewrite (Hget b (h / P) (w / P) c (h mod P) (w mod P)) by assumption.
  replace (h / P * P + h mod P) with h
    by (pose proof (Nat.div_mod_eq h P); lia).
  replace (w / P * P + w mod P) with w
    by (pose proof (Nat.div_mod_eq w P); lia).
  exact Hv.
Qed.

Lemma img_to_patch_square_pixel_witness :
  exists tg,
    img_to_patch (arange [2; 3; 4; 4]) (Z.of_nat 2) (Some false) = Ok tg /\
    shape tg = [2; 4 / 2 * (4 / 2); 3; 2; 2] /\
    forall b c h w,
      b < 2 -> c < 3 -> h < 4 -> w < 4 ->
      exists v,
        get (arange [2; 3; 4; 4]) [b; c; h; w] = Some v /\
        get tg [b; h / 2 * (4 / 2) + w / 2; c; h mod 2; w mod 2] = Some v.
Proof.
  apply (img_to_patch_square_pixel nat (arange [2; 3; 4; 4]) 2 3 4 2);
    [reflexivity | reflexivity | lia | reflexivity].
Defined.

(** X7. Patch size 1.  Every pixel is a patch and the result is the batch
    with the channel axis moved last: for every height and width, the
    feature form has shape (B, H*W, C) and holds pixel (h, w) of channel c
    at [b, h*W + w, c]. *)
Theorem img_to_patch_pixel_tokens :
  forall (A : Type) (x : Tensor A) (B C H W : nat),
    wf x -> shape x = [B; C; H; W] ->
    exists tf,
      img_to_patch x 1 None = Ok tf /\
      shape tf = [B; H * W; C] /\
      forall b c h w,
        b < B -> c < C -> h < H -> w < W ->
        exists v,
          get x [b; c; h; w] = Some v /\
          get tf [b; h * W + w; c] = Some v.
Proof.
  intros A x B C H W Hwf Hs.
  change 1%Z with (Z.of_nat 1).
  rewrite (img_to_patch_ok x B C H W 1 None Hs);
    [|lia|apply Nat.mod_1_r|apply Nat.mod_1_r].
  cbn [default from_option id]. rewrite !Nat.div_1_r, !Nat.mul_1_r.
  rewrite (Nat.mul_comm W H).
  eexists. split; [reflexivity|]. cbn [shape]. split; [reflexivity|].
  intros b c h w Hb Hc Hh Hw.
  destruct (get_in_bounds_Some x [b; c; h; w] Hwf) as [v Hv].
  { rewrite Hs. bounds. }
  exists v. split; [exact Hv|]. rewrite <- Hv.
  unfold get. rewrite Hs. cbn [shape data].
  replace (in_bounds [B; H * W; C] [b; h * W + w; c]) with true
    by (symmetry; bounds).
  replace (in_bounds [B; C; H; W] [b; c; h; w]) with true
    by (symmetry; bounds).
  set (n := h * W + w).
  assert (Hn : n < W * H) by (unfold n; nia).
  assert (Hg : n / H < W) by (apply Nat.Div0.div_lt_upper_bound; lia).
  assert (Hd : n mod H < H) by (apply Nat.mod_upper_bound; lia).
  pose proof (Nat.div_mod_eq n H) as En.
  replace (ravel [B; H * W; C] [b; n; c])
    with (ravel [B; W; H; C; 1; 1] [b; n / H; n mod H; c; 0; 0]).
  - rewrite gather_patch_offsets; try assumption; try lia.
    + f_equal. cbn [ravel numel].
      replace (n / H * (1 * (H * (1 * 1))) + (0 * (H * (1 * 1)) +
               (n mod H * (1 * 1) + (0 * 1 + 0))))
        with n by lia.
      unfold n. ring.
    + unfold wf in Hwf. rewrite Hwf, Hs. cbn [numel]. ring.
  - cbn [ravel numel].
    replace (n / H * (H * (C * (1 * (1 * 1)))))
      with ((H * (n / H)) * C) by ring.
    replace (b * (H * W * (C * 1)) + (n * (C * 1) + (c * 1 + 0)))
      with (b * (H * W * C) + (H * (n / H) + n mod H) * C + c)
      by (rewrite <- En; ring).
    ring.
Qed.

Lemma img_to_patch_pixel_tokens_witness :
  exists tf,
    img_to_patch (arange [1; 2; 2; 3]) 1 None = Ok tf /\
    shape tf = [1; 2 * 3; 2] /\
    forall b c h w,
      b < 1 -> c < 2 -> h < 2 -> w < 3 ->
      exists v,
        get (arange [1; 2; 2; 3]) [b; c; h; w] = Some v /\
        get tf [b; h * 3 + w; c] = Some v.
Proof.
  apply (img_to_patch_pixel_tokens nat (arange [1; 2; 2; 3]) 1 2 2 3);
    reflexivity.
Defined.

(** ** Elementwise operations and images of a batch *)

(** X8. [img_to_patch] commutes with every elementwise operation: applying
    the operation to the batch and then cutting patches gives what cutting
    patches and then applying the operation gives, the same exception
    included. *)
Theorem img_to_patch_elementwise :
  forall (A B : Type) (f : A -> B) (x : Tensor A) (P : Z) (fc : option bool),
    img_to_patch (tensor_map f x) P fc
    = res_map (tensor_map f) (img_to_patch x P fc).
Proof.
  intros A B f x P fc. rewrite !img_to_patch_closed.
  unfold tensor_map at 1 2. cbn [shape data].
  destruct (shape x) as [|b [|c [|a2 [|a3 [|? ?]]]]]; try reflexivity.
  cbv zeta. destruct (_ && _)%bool; [|reflexivity].
  cbn [res_map]. unfold tensor_map. cbn [shape data].
  rewrite gather_map. reflexivity.
Qed.

Lemma get_exchanged {A} (x : Tensor A) B C a2 a3 b c h w :
  shape x = [B; C; a2; a3] -> b < B -> c < C -> h < a3 -> w < a2 ->
  get (mkTensor [B; C; a3; a2] (data x)) [b; c; h; w]
  = get x [b; c; (h * a2 + w) / a3; (h * a2 + w) mod a3].
Proof.
  intros Hs Hb Hc Hh Hw. unfold get. rewrite Hs. cbn [shape data].
  set (m := h * a2 + w).
  assert (Hm : m < a2 * a3) by (unfold m; nia).
  assert (Hq : m / a3 < a2) by (apply Nat.Div0.div_lt_upper_bound; lia).
  assert (Hr : m mod a3 < a3) by (apply Nat.mod_upper_bound; lia).
  pose proof (Nat.div_mod_eq m a3) as Em.
  replace (in_bounds [B; C; a3; a2] [b; c; h; w]) with true
    by (symmetry; bounds).
  replace (in_bounds [B; C; a2; a3] [b; c; m / a3; m mod a3]) with true
    by (symmetry; bounds).
  f_equal. cbn [ravel numel].
  replace (b * (C * (a2 * (a3 * 1))) +
           (c * (a2 * (a3 * 1)) + (m / a3 * (a3 * 1) + (m mod a3 * 1 + 0))))
    with (b * (C * (a2 * a3)) + c * (a2 * a3) + (a3 * (m / a3) + m mod a3))
    by ring.
  rewrite <- Em. unfold m. ring.
Qed.

(** X9. The patches of an image depend on that image only: if two batches
    of the same shape hold the same image at position b, the results hold
    the same patches at position b. *)
Theorem img_to_patch_batch_independent :
  forall (A : Type) (x y : Tensor A) (B C H W P b : nat),
    wf x -> wf y -> shape x = [B; C; H; W] -> shape y = [B; C; H; W] ->
    0 < P -> H mod P = 0 -> W mod P = 0 -> b < B ->
    (forall c h w, get x [b; c; h; w] = get y [b; c; h; w]) ->
    exists tx ty,
      img_to_patch x (Z.of_nat P) (Some false) = Ok tx /\
      img_to_patch y (Z.of_nat P) (Some false) = Ok ty /\
      forall n c i j, get tx [b; n; c; i; j] = get ty [b; n; c; i; j].
Proof.
  intros A x y B C H W P b Hwx Hwy Hsx Hsy HP HH HW Hb Hsame.
  destruct (multiple_of H P HP HH) as (g2 & -> & _).
  destruct (multiple_of W P HP HW) as (g3 & -> & _).
  destruct (img_to_patch_block x B C g2 g3 P Hwx Hsx HP)
    as (tx & Hrx & Hshx & _ & Hgx).
  destruct (img_to_patch_block y B C g2 g3 P Hwy Hsy HP)
    as (ty & Hry & Hshy & _ & Hgy).
  exists tx, ty. split; [exact Hrx|]. split; [exact Hry|].
  intros n c i j.
  destruct (in_bounds [B; g3 * g2; C; P; P] [b; n; c; i; j]) eqn:Hin.
  - cbn [in_bounds] in Hin. rewrite !andb_true_iff, !Nat.ltb_lt in Hin.
    destruct Hin as (_ & Hn & Hc & Hi & Hj & _).
    assert (Hg2 : 0 < g2) by nia.
    assert (Hg : n / g2 < g3) by (apply Nat.Div0.div_lt_upper_bound; lia).
    assert (Hd : n mod g2 < g2) by (apply Nat.mod_upper_bound; lia).
    replace n with (n / g2 * g2 + n mod g2)
      by (pose proof (Nat.div_mod_eq n g2); lia).
    rewrite (Hgx b (n / g2) (n mod g2) c i j) by assumption.
    rewrite (Hgy b (n / g2) (n mod g2) c i j) by assumption.
    rewrite (get_exchanged x B C (g2 * P) (g3 * P)) by (assumption || nia).
    rewrite (get_exchanged y B C (g2 * P) (g3 * P)) by (assumption || nia).
    apply Hsame.
  - unfold get. rewrite Hshx, Hshy, Hin. reflexivity.
Qed.

Lemma img_to_patch_batch_independent_witness :
  exists tx ty,
    img_to_patch (mkTensor [2; 1; 2; 2] [1; 2; 3; 4; 5; 6; 7; 8])
      (Z.of_nat 1) (Some false) = Ok tx /\
    img_to_patch (mkTensor [2; 1; 2; 2] [1; 2; 3; 4; 0; 0; 0; 0])
      (Z.of_nat 1) (Some false) = Ok ty /\
    forall n c i j, get tx [0; n; c; i; j] = get ty [0; n; c; i; j].
Proof.
  apply (img_to_patch_batch_independent nat
           (mkTensor [2; 1; 2; 2] [1; 2; 3; 4; 5; 6; 7; 8])
           (mkTensor [2; 1; 2; 2] [1; 2; 3; 4; 0; 0; 0; 0]) 2 1 2 2 1 0);
    try reflexivity; try lia.
  intros [|c] [|[|h]] [|[|w]]; reflexivity.
Defined.

(** ** The caller's input layer *)

(** X10. [VisionTransformer.forward] does not get past its input layer
    when the batch has another channel count than the [num_channels] the
    model was built for: for a batch with at least one element and valid
    sizes, the feature width C * P^2 differs from the layer's input width
    num_channels * patch_size^2 and the call raises [RuntimeError]. *)
Theorem forward_wrong_channel_count :
  forall (A : Type) (x : Tensor A) (B C H W P : nat)
         (embed_dim num_channels : Z),
    shape x = [B; C; H; W] -> 0 < B * C * H * W ->
    0 < P -> H mod P = 0 -> W mod P = 0 ->
    (0 < embed_dim)%Z -> (0 < num_channels)%Z ->
    Z.of_nat C <> num_channels ->
    VisionTransformer_forward_tokens
      (VisionTransformer_init embed_dim num_channels (Z.of_nat P)) x
    = Raise RuntimeError.
Proof.
  intros A x B C H W P embed_dim num_channels Hs _ HP HH HW _ _ HC.
  unfold VisionTransformer_forward_tokens.
  cbn [VisionTransformer_init patch_size in_features input_layer].
  rewrite (img_to_patch_ok x B C H W P None Hs HP HH HW).
  cbn [default from_option id mbind Res_bind shape].
  assert (Hw : Z.of_nat (C * P * P) = (Z.of_nat C * Z.of_nat P ^ 2)%Z).
  { rewrite Z.pow_2_r, !Nat2Z.inj_mul. ring. }
  rewrite Hw.
  destruct (Z.eqb_spec (Z.of_nat C * Z.of_nat P ^ 2)
              (num_channels * Z.of_nat P ^ 2)) as [E|E]; [|reflexivity].
  exfalso. apply HC. apply Z.mul_cancel_r in E; [exact E|].
  apply Z.pow_nonzero; lia.
Qed.

Lemma forward_wrong_channel_count_witness :
  VisionTransformer_forward_tokens
    (VisionTransformer_init 256 3 (Z.of_nat 4)) (arange [2; 1; 32; 32])
  = Raise RuntimeError.
Proof.
  apply (forward_wrong_channel_count nat (arange [2; 1; 32; 32]) 2 1 32 32 4
           256 3 eq_refl);
    try reflexivity; lia.
Defined.

(** ** Calls that raise *)

(** X11. Whether the call returns or raises, every object that was in the
    store before it is there unchanged after it: an exception leaves no
    tensor half-modified. *)
Theorem img_to_patch_exception_safe :
  forall (A : Type) (s s' : gmap nat (Tensor A)) (x : nat) (P : Z)
         (fc : option bool) (out : Res nat),
    img_to_patch_st x P fc s = (out, s') ->
    forall l t, s !! l = Some t -> s' !! l = Some t.
Proof.
  intros A s s' x P fc out Hrun l t Hl.
  destruct (s !! x) as [tx|] eqn:Hx.
  - destruct (img_to_patch_st_spec x P fc s tx Hx) as [Hsub _].
    rewrite Hrun in Hsub. exact (lookup_weaken _ _ _ _ Hl Hsub).
  - revert Hrun. unfold img_to_patch_st, st_bind, st_read. rewrite Hx.
    intros [= _ <-]. exact Hl.
Qed.

Lemma img_to_patch_exception_safe_witness :
  snd (img_to_patch_st 0 4 None {[0 := arange [1; 1; 30; 30]]}) !! 0
  = Some (arange [1; 1; 30; 30]).
Proof.
  apply (img_to_patch_exception_safe nat {[0 := arange [1; 1; 30; 30]]} _ 0 4
           None (Raise RuntimeError)); reflexivity.
Defined.

(** ** Feature order on square images *)

(** X12. Square images, feature form.  When H = W = S, position
    c*P*P + i*P + j of the feature vector of patch r * (S/P) + q holds the
    pixel of channel c at row r*P + i and column q*P + j of the image:
    channel-major, then rows, then columns of the P x P block in row r,
    column q of the block grid. *)
Theorem img_to_patch_square_feature :
  forall (A : Type) (x : Tensor A) (B C S P : nat),
    wf x -> shape x = [B; C; S; S] -> 0 < P -> S mod P = 0 ->
    exists tf,
      img_to_patch x (Z.of_nat P) (Some true) = Ok tf /\
      shape tf = [B; S / P * (S / P); C * P * P] /\
      forall b r q c i j,
        b < B -> r < S / P -> q < S / P -> c < C -> i < P -> j < P ->
        exists v,
          get x [b; c; r * P + i; q * P + j] = Some v /\
          get tf [b; r * (S / P) + q; c * P * P + i * P + j] = Some v.
Proof.
  intros A x B C S P Hwf Hs HP HS.
  destruct (img_to_patch_feature_of_grid A x B C S S P Hwf Hs HP HS HS)
    as (tg & tf & Hg & Hf & Hsh & Hfg).
  exists tf. split; [exact Hf|]. split; [exact Hsh|].
  destruct (multiple_of S P HP HS) as (g & -> & Q).
  rewrite Q in *.
  destruct (img_to_patch_block_square x B C g P Hwf Hs HP)
    as (tg' & Hg' & _ & Hget).
  rewrite Hg in Hg'. injection Hg' as <-.
  intros b r q c i j Hb Hr Hq Hc Hi Hj.
  destruct (Hfg b (r * g + q) c i j) as (v & Hv1 & Hv2);
    [assumption | nia | assumption | assumption | assumption |].
  exists v. split; [|exact Hv1].
  rewrite <- (Hget b r q c i j) by assumption. exact Hv2.
Qed.

Lemma img_to_patch_square_feature_witness :
  exists tf,
    img_to_patch (arange [2; 3; 4; 4]) (Z.of_nat 2) (Some true) = Ok tf /\
    shape tf = [2; 4 / 2 * (4 / 2); 3 * 2 * 2] /\
    forall b r q c i j,
      b < 2 -> r < 4 / 2 -> q < 4 / 2 -> c < 3 -> i < 2 -> j < 2 ->
      exists v,
        get (arange [2; 3; 4; 4]) [b; c; r * 2 + i; q * 2 + j] = Some v /\
        get tf [b; r * (4 / 2) + q; c * 2 * 2 + i * 2 + j] = Some v.
Proof.
  apply (img_to_patch_square_feature nat (arange [2; 3; 4; 4]) 2 3 4 2);
    [reflexivity | reflexivity | lia | reflexivity].
Defined.
